(** * silx: GPU byte-offset decompressor, plot-widget test harness and
    median-filter conformance test

  A shallow embedding of
  - [silx/opencl/codec/byte_offset.py] (class [ByteOffset]),
  - [silx/gui/plot/test/utils.py] (class [PlotWidgetTestCase]),
  - [silx/image/test/test_medianfilter.py] (class [TestMedianFilterEngines]),
  followed by the properties established about them. *)

From stdpp Require Import gmap strings list fin_maps pretty sorting.
From Stdlib Require Import ZArith Lia.

Local Open Scope Z_scope.

(** ** Fragments of the Python runtime the sources rely on *)

Module Py.

(** [min(None, 128)] is answered differently by the two language versions
    the sources target (they import from [__future__]). *)
Inductive version := Py2 | Py3.

Inductive exn :=
| TypeError (what : string)
| NameError (name : string)
| UnboundLocalError (name : string)
| KeyError (key : string)
| AttributeError (attr : string).

(** The values the [block_size] argument takes: [None] (its default) or an
    integer. *)
Inductive value := PyNone | PyInt (z : Z).

(** Computations that read and write a state [S] and may raise.  What was
    written before a [raise] stays written, as in Python. *)
Definition M (S A : Type) : Type := S → (exn + A) * S.

#[global] Instance M_ret {S} : MRet (M S) := λ A a s, (inr a, s).
#[global] Instance M_bind {S} : MBind (M S) := λ A B f m s,
  match m s with
  | (inl e, s') => (inl e, s')
  | (inr a, s') => f a s'
  end.

Definition raise {S A} (e : exn) : M S A := λ s, (inl e, s).
Definition gets {S A} (f : S → A) : M S A := λ s, (inr (f s), s).
Definition modify {S} (f : S → S) : M S unit := λ s, (inr tt, f s).
Definition lift {S A} (r : exn + A) : M S A := λ s, (r, s).
Definition stateful {S A} (f : S → A * S) : M S A :=
  λ s, let '(a, s') := f s in (inr a, s').

(** [a < b]: integers compare as integers; with [None] Python 2 orders
    [None] below everything, Python 3 raises. *)
Definition py_lt (v : version) (a b : value) : exn + bool :=
  match a, b with
  | PyInt x, PyInt y => inr (x <? y)
  | PyNone, PyInt _ =>
      match v with
      | Py2 => inr true
      | Py3 => inl (TypeError "'<' not supported between instances of 'NoneType' and 'int'")
      end
  | PyInt _, PyNone =>
      match v with
      | Py2 => inr false
      | Py3 => inl (TypeError "'<' not supported between instances of 'int' and 'NoneType'")
      end
  | PyNone, PyNone =>
      match v with
      | Py2 => inr false
      | Py3 => inl (TypeError "'<' not supported between instances of 'NoneType' and 'NoneType'")
      end
  end.

(** [min(a, b)]: keeps [a] unless [b < a]. *)
Definition py_min (v : version) (a b : value) : exn + value :=
  match py_lt v b a with
  | inl e => inl e
  | inr true => inr b
  | inr false => inr a
  end.

(** The integer operand of [+], [-], [~]: [None] is no number. *)
Definition as_int (a : value) : exn + Z :=
  match a with
  | PyInt z => inr z
  | PyNone => inl (TypeError "unsupported operand type(s): 'NoneType'")
  end.

(** [numpy.int32(z)]: the 32-bit two's complement value of [z]. *)
Definition int32 (z : Z) : Z := (z + 2 ^ 31) mod 2 ^ 32 - 2 ^ 31.

End Py.

Import Py.

(** ** [silx/opencl/codec/byte_offset.py] *)

Module ByteOffsetCodec.

Inductive dtype := int8 | int32_t | float32.

(** A device array ([pyopencl.array]): the allocation it stands for, its
    length and its element type. *)
Record cl_array := ClArray {
  arr_handle : nat;
  arr_size : Z;
  arr_dtype : dtype
}.

Record BufferDescription := BufferDesc {
  bd_name : string;
  bd_size : Z;
  bd_dtype : dtype
}.

Record EventDescription := EventDesc {
  ev_name : string;
  ev_event : nat
}.

(** An entry of the kernel table [self.kernels]: a kernel compiled from
    the OpenCL module, or the bound method stored under ["scan"]. *)
Inductive kernel_obj :=
| Compiled (name : string)
| BoundMethod (name : string).

(** Arguments handed to a kernel launch. *)
Inductive karg :=
| ABuffer (handle : nat)
| AScalar (z : Z).

(** The global size of a launch: the sources pass a tuple everywhere but
    in the last launch of [dec], which passes the bare number. *)
Inductive gsize := Tuple (l : list Z) | Bare (z : Z).

(** What the host asks of the device, in program order. *)
Inductive command :=
| CopyHostToDevice (dst : nat) (data : list Byte.byte)
| CopyDeviceToHost (src : nat)
| WaitFor (event : nat)
| Launch (kernel : string) (global_size : gsize) (local_size : list Z)
         (args : list karg).

(** The OpenCL side: the next free allocation, the requests made so far
    (oldest first) and the records written to the module logger. *)
Record device := Device {
  next_handle : nat;
  queue : list command;
  log_info : list (string * Z)
}.

Record ByteOffset := Self {
  block_size : Z;
  raw_size : Z;
  dec_size : Z;
  padded_raw_size : Z;
  padded_dec_size : Z;
  cl_mem : gmap string cl_array;
  kernels : gmap string kernel_obj;
  profile : bool;
  events : list EventDescription
}.

(** [pyopencl.array.empty(queue, size, dtype)] *)
Definition array_empty (size : Z) (t : dtype) (d : device) : cl_array * device :=
  (ClArray (next_handle d) size t,
   Device (S (next_handle d)) (queue d) (log_info d)).

(** [(size + wg - 1) & ~(wg - 1)] *)
Definition padded (size wg : Z) : Z :=
  Z.land (size + wg - 1) (Z.lnot (wg - 1)).

(** Modelled from the spec: [OpenclProcessing.allocate_buffers] of
    silx/opencl/processing.py, which is missing.  The spec
    has the constructor allocate one device buffer per description, of the
    described length and element type, under the described name. *)
Fixpoint allocate_buffers (buffers : list BufferDescription)
    (mem : gmap string cl_array) (d : device) : gmap string cl_array * device :=
  match buffers with
  | [] => (mem, d)
  | b :: rest =>
      let '(a, d') := array_empty (bd_size b) (bd_dtype b) d in
      allocate_buffers rest (<[bd_name b := a]> mem) d'
  end.

(** Modelled from the spec: [OpenclProcessing.compile_kernels] of
    silx/opencl/processing.py and the OpenCL module codec/byte_offset,
    both missing.  The spec lists the entry points the module
    exposes. *)
Definition compile_kernels : gmap string kernel_obj :=
  list_to_map
    ((λ n, (n, Compiled n)) <$>
     ["fill_int_mem"; "mark_exceptions"; "treat_exceptions";
      "copy_result_float"; "copy_result_int"]).

(** Modelled from the spec: [OpenclProcessing.__init__] of
    silx/opencl/processing.py, which is missing.  The spec
    has the block size it is handed become the work-group size of the
    instance; it keeps the profiling flag and starts with no buffer, no
    kernel and no recorded event. *)
Definition OpenclProcessing_init (block_size : value) (profile : bool)
    : value * bool * gmap string cl_array * list EventDescription :=
  (block_size, profile, ∅, []).

(** [ByteOffset.__init__] *)
Definition __init__ (v : version) (raw_size dec_size : Z)
    (block_size : value) (profile : bool) : M device ByteOffset :=
  clamped ← lift (py_min v block_size (PyInt 128));
  let '(self_block_size, self_profile, mem0, self_events) :=
    OpenclProcessing_init clamped profile in
  let wg := self_block_size in
  let self_raw_size := int32 raw_size in
  let self_dec_size := int32 dec_size in
  wg ← lift (as_int wg);
  let self_padded_raw_size := padded self_raw_size wg in
  let self_padded_dec_size := padded self_dec_size wg in
  let buffers :=
    [ BufferDesc "raw" self_raw_size int8;
      BufferDesc "mask" self_raw_size int32_t;
      BufferDesc "values" self_raw_size int32_t;
      BufferDesc "exceptions" self_raw_size int32_t;
      BufferDesc "counter" 1 int32_t;
      BufferDesc "data_float" self_dec_size float32;
      BufferDesc "data_int" self_dec_size int32_t ] in
  mem ← stateful (allocate_buffers buffers mem0);
  let kernels := compile_kernels in
  let kernels := <["scan" := BoundMethod "_init_double_scan"]> kernels in
  mret (Self wg self_raw_size self_dec_size
             self_padded_raw_size self_padded_dec_size
             mem kernels self_profile self_events).

(** *** [ByteOffset.dec] *)

(** The local names of one [dec] call that the rest of the call reads
    back: the event list, and [wg], unbound until it is assigned. *)
Record frame := Frame {
  f_events : list EventDescription;
  f_wg : option Z
}.

Record state := State {
  self : ByteOffset;
  dev : device;
  locals : frame
}.

(** The names bound at module level in byte_offset.py. *)
Definition module_globals : list string :=
  [ "division"; "print_function"; "with_statement";
    "__authors__"; "__contact__"; "__license__"; "__copyright__";
    "__date__"; "__status__";
    "os"; "numpy"; "ocl"; "pyopencl";
    "BufferDescription"; "EventDescription"; "OpenclProcessing";
    "logging"; "logger"; "ByteOffset" ].

(** A module-level object: a module, a class, a logger, a string. *)
Inductive pyobj := ModuleLevel (name : string).

(** Reading a name that [dec] never assigns: looked up among the module
    globals. *)
Definition load_global (name : string) : M state pyobj :=
  if bool_decide (name ∈ module_globals)
  then mret (ModuleLevel name)
  else raise (NameError name).

(** [obj.data], for a module-level object: none of them is an array. *)
Definition attr_data (o : pyobj) : M state karg :=
  raise (AttributeError "data").

(** [numpy.int32(obj)], for a module-level object. *)
Definition int32_of (o : pyobj) : M state karg :=
  raise (TypeError "int() argument must be a string or a number").

(** Reading the local [wg]. *)
Definition load_wg : M state Z :=
  w ← gets (f_wg ∘ locals);
  match w with
  | Some z => mret z
  | None => raise (UnboundLocalError "wg")
  end.

Definition store_wg (z : Z) : M state unit :=
  modify (λ st, State (self st) (dev st) (Frame (f_events (locals st)) (Some z))).

(** [events.append(EventDescription(label, evt))] *)
Definition events_append (label : string) (evt : nat) : M state unit :=
  modify (λ st, State (self st) (dev st)
                  (Frame (f_events (locals st) ++ [EventDesc label evt])
                         (f_wg (locals st)))).

Definition update_self (f : ByteOffset → ByteOffset) : M state unit :=
  modify (λ st, State (f (self st)) (dev st) (locals st)).

Definition set_raw_size (z : Z) (s : ByteOffset) : ByteOffset :=
  Self (block_size s) z (dec_size s) (padded_raw_size s) (padded_dec_size s)
       (cl_mem s) (kernels s) (profile s) (events s).

Definition set_padded_raw_size (z : Z) (s : ByteOffset) : ByteOffset :=
  Self (block_size s) (raw_size s) (dec_size s) z (padded_dec_size s)
       (cl_mem s) (kernels s) (profile s) (events s).

Definition set_cl_mem (m : gmap string cl_array) (s : ByteOffset) : ByteOffset :=
  Self (block_size s) (raw_size s) (dec_size s) (padded_raw_size s)
       (padded_dec_size s) m (kernels s) (profile s) (events s).

Definition set_events (l : list EventDescription) (s : ByteOffset) : ByteOffset :=
  Self (block_size s) (raw_size s) (dec_size s) (padded_raw_size s)
       (padded_dec_size s) (cl_mem s) (kernels s) (profile s) l.

Definition on_device {A} (f : device → A * device) : M state A :=
  stateful (λ st, let '(a, d) := f (dev st) in (a, State (self st) d (locals st))).

(** Putting a command on the queue gives back its event. *)
Definition enqueue (c : command) : M state nat :=
  on_device (λ d, (length (queue d),
                   Device (next_handle d) (queue d ++ [c]) (log_info d))).

(** [logger.info(fmt, n)] *)
Definition logger_info (fmt : string) (n : Z) : M state unit :=
  on_device (λ d, (tt, Device (next_handle d) (queue d) (log_info d ++ [(fmt, n)]))).

(** [self.cl_mem[name]] *)
Definition cl_mem_item (name : string) : M state cl_array :=
  m ← gets (cl_mem ∘ self);
  match m !! name with
  | Some a => mret a
  | None => raise (KeyError name)
  end.

(** [self.kernels.<name>] *)
Definition kernel_attr (name : string) : M state kernel_obj :=
  k ← gets (kernels ∘ self);
  match k !! name with
  | Some o => mret o
  | None => raise (AttributeError name)
  end.

(** Calling an entry of the kernel table as
    [k(self.queue, global, local, *args)]. *)
Definition call_kernel (k : kernel_obj) (g : gsize) (l : list Z)
    (args : list karg) : M state nat :=
  match k with
  | Compiled n => enqueue (Launch n g l args)
  | BoundMethod n => raise (TypeError (n +:+ "() takes 1 positional argument"))
  end.

(** [len_raw = numpy.int32(len(raw))]: the stream length as [dec]
    measures it. *)
Definition len_raw (raw : list Byte.byte) : Z := int32 (Z.of_nat (length raw)).

(** The body of the [if len_raw > self.raw_size:] branch. *)
Definition grow (raw : list Byte.byte) : M state unit :=
  let len := Z.of_nat (length raw) in
  logger_info "increase raw buffer size to %s" len;;
  let raw_size := len in
  b_raw ← on_device (array_empty raw_size int8);
  b_mask ← on_device (array_empty raw_size int32_t);
  b_exceptions ← on_device (array_empty raw_size int32_t);
  b_values ← on_device (array_empty raw_size int32_t);
  let buffers : gmap string cl_array :=
    {[ "raw" := b_raw; "mask" := b_mask;
       "exceptions" := b_exceptions; "values" := b_values ]} in
  update_self (set_raw_size raw_size);;
  wg ← gets (block_size ∘ self);
  store_wg wg;;
  update_self (set_padded_raw_size (padded raw_size wg));;
  (* self.cl_mem.update(buffers) *)
  update_self (λ s, set_cl_mem (buffers ∪ cl_mem s) s).

(** The choice of the output array and of the copy kernel. *)
Definition choose_output (as_float : bool) (out : option cl_array)
    : M state (cl_array * kernel_obj) :=
  match out with
  | Some o =>
      match arr_dtype o with
      | float32 => k ← kernel_attr "copy_result_float"; mret (o, k)
      | _ => k ← kernel_attr "copy_result_int"; mret (o, k)
      end
  | None =>
      if as_float
      then o ← cl_mem_item "data_float";
           k ← kernel_attr "copy_result_float"; mret (o, k)
      else o ← cl_mem_item "data_int";
           k ← kernel_attr "copy_result_int"; mret (o, k)
  end.

(** The statements of [dec] under [with self.sem:], then [return out].
    [nbexc] is the number the device hands back when the counter is read:
    the kernels that write it are missing.  The guard
    [self.sem] is released on every way out and plays no part in a single
    call. *)
Definition dec_body (raw : list Byte.byte) (as_float : bool)
    (out : option cl_array) (nbexc : Z) : M state cl_array :=
  let len_raw := len_raw raw in
  cur ← gets (raw_size ∘ self);
  (if len_raw >? cur then grow raw else mret tt);;

  d_raw ← cl_mem_item "raw";
  evt ← enqueue (CopyHostToDevice (arr_handle d_raw) raw);
  events_append "copy raw H -> D" evt;;

  k ← kernel_attr "fill_int_mem";
  prs ← gets (padded_raw_size ∘ self);
  wg ← load_wg;
  d_mask ← cl_mem_item "mask";
  rs ← gets (raw_size ∘ self);
  evt ← call_kernel k (Tuple [prs]) [wg]
          [ABuffer (arr_handle d_mask); AScalar rs;
           AScalar (int32 0); AScalar (int32 0)];
  events_append "memset mask" evt;;

  k ← kernel_attr "fill_int_mem";
  d_counter ← cl_mem_item "counter";
  evt ← call_kernel k (Tuple [1]) [1]
          [ABuffer (arr_handle d_counter); AScalar (int32 1);
           AScalar (int32 0); AScalar (int32 0)];
  events_append "memset counter" evt;;

  k ← kernel_attr "mark_exceptions";
  prs ← gets (padded_raw_size ∘ self);
  wg ← load_wg;
  d_raw ← cl_mem_item "raw";
  rs ← gets (raw_size ∘ self);
  d_mask ← cl_mem_item "mask";
  d_values ← cl_mem_item "values";
  d_counter ← cl_mem_item "counter";
  d_exceptions ← cl_mem_item "exceptions";
  evt ← call_kernel k (Tuple [prs]) [wg]
          [ABuffer (arr_handle d_raw); AScalar len_raw; AScalar rs;
           ABuffer (arr_handle d_mask); ABuffer (arr_handle d_values);
           ABuffer (arr_handle d_counter); ABuffer (arr_handle d_exceptions)];
  events_append "mark exceptions" evt;;

  d_counter ← cl_mem_item "counter";
  evt ← enqueue (CopyDeviceToHost (arr_handle d_counter));
  events_append "copy counter D -> H" evt;;
  enqueue (WaitFor evt);;

  k ← kernel_attr "treat_exceptions";
  d_raw ← cl_mem_item "raw";
  d_mask ← cl_mem_item "mask";
  d_exceptions ← cl_mem_item "exceptions";
  d_values ← cl_mem_item "values";
  evt ← call_kernel k (Tuple [nbexc]) [1]
          [ABuffer (arr_handle d_raw); AScalar len_raw;
           ABuffer (arr_handle d_mask); ABuffer (arr_handle d_exceptions);
           ABuffer (arr_handle d_values)];
  events_append "treat_exceptions" evt;;

  '(out, copy_results) ← choose_output as_float out;

  pds ← gets (padded_dec_size ∘ self);
  wg ← load_wg;
  cumsummed_d ← load_global "cumsummed_d";
  a_values ← attr_data cumsummed_d;
  indexes_d ← load_global "indexes_d";
  a_indexes ← attr_data indexes_d;
  size_out ← load_global "size_out";
  a_size ← int32_of size_out;
  evt ← call_kernel copy_results (Bare pds) [wg]
          [a_values; a_indexes; a_size; ABuffer (arr_handle out)];
  events_append "copy_results" evt;;

  prof ← gets (profile ∘ self);
  (if prof : bool
   then evs ← gets (f_events ∘ locals);
        update_self (λ s, set_events (events s ++ evs) s)
   else mret tt);;
  mret out.

(** [self.dec(raw, as_float, out)]: a call starts with [events = []] and
    [wg] unbound. *)
Definition dec (s : ByteOffset) (d : device) (raw : list Byte.byte)
    (as_float : bool) (out : option cl_array) (nbexc : Z)
    : (exn + cl_array) * state :=
  dec_body raw as_float out nbexc (State s d (Frame [] None)).

(** *** [ByteOffset._init_double_scan] *)

Inductive scan_class := GenericScanKernel | GenericDebugScanKernel.

(** What the scan-kernel constructors of pyopencl are handed (after the
    context): element type, arguments, input expression, scan expression,
    neutral element, output statement. *)
Record scan_kernel := ScanKernel {
  sk_class : scan_class;
  sk_dtype : string;
  sk_arguments : list string;
  sk_input_expr : string;
  sk_scan_expr : string;
  sk_neutral : string;
  sk_output_statement : string
}.

Definition _init_double_scan (s : ByteOffset) : scan_kernel :=
  let int2 := "int2" in
  let input_expr := "mask[i]?(int2)(0, 0):(int2)(value[i], 1)" in
  let scan_expr := "a+b" in
  let neutral := "(int2)(0,0)" in
  let arguments := ["__global int *value"; "__global int *index"] in
  let output_statement := "value[i] = item.s0; index[i+1] = item.s1;" in
  if block_size s >=? 64
  then ScanKernel GenericScanKernel int2 arguments input_expr scan_expr
                  neutral output_statement
  else ScanKernel GenericDebugScanKernel int2 arguments input_expr scan_expr
                  neutral output_statement.

(** *** Instances as the constructor leaves them *)

Definition buffer_names : list string :=
  ["raw"; "mask"; "values"; "exceptions"; "counter"; "data_float"; "data_int"].

Definition kernel_names : list string :=
  ["fill_int_mem"; "mark_exceptions"; "treat_exceptions";
   "copy_result_float"; "copy_result_int"].

#[global] Instance kernel_obj_eq_dec : EqDecision kernel_obj.
Proof. solve_decision. Defined.

(** Every buffer of the constructor is in [cl_mem] and every kernel of the
    OpenCL module is in the kernel table. *)
Definition well_formed (s : ByteOffset) : bool :=
  forallb (λ n, bool_decide (is_Some (cl_mem s !! n))) buffer_names
  && forallb (λ n, bool_decide (kernels s !! n = Some (Compiled n))) kernel_names.

(** The four arrays of the growth branch, allocated from handle [h] on,
    as the dictionary [buffers]. *)
Definition grown_buffers (h : nat) (len : Z) : gmap string cl_array :=
  {[ "raw" := ClArray h len int8;
     "mask" := ClArray (S h) len int32_t;
     "exceptions" := ClArray (S (S h)) len int32_t;
     "values" := ClArray (S (S (S h))) len int32_t ]}.

(** The requests of a [dec] call that takes the growth branch, up to the
    launch that resolves the exceptions: [h] is the first handle of the
    new arrays, [hc] the handle of the counter, [e] the event of the first
    request. *)
Definition growth_requests (s : ByteOffset) (raw : list Byte.byte)
    (nbexc : Z) (h hc e : nat) : list command :=
  let len := Z.of_nat (length raw) in
  let wg := block_size s in
  [ CopyHostToDevice h raw;
    Launch "fill_int_mem" (Tuple [padded len wg]) [wg]
      [ABuffer (S h); AScalar len; AScalar 0; AScalar 0];
    Launch "fill_int_mem" (Tuple [1]) [1]
      [ABuffer hc; AScalar 1; AScalar 0; AScalar 0];
    Launch "mark_exceptions" (Tuple [padded len wg]) [wg]
      [ABuffer h; AScalar (len_raw raw); AScalar len; ABuffer (S h);
       ABuffer (S (S (S h))); ABuffer hc; ABuffer (S (S h))];
    CopyDeviceToHost hc;
    WaitFor (e + 4);
    Launch "treat_exceptions" (Tuple [nbexc]) [1]
      [ABuffer h; AScalar (len_raw raw); ABuffer (S h); ABuffer (S (S h));
       ABuffer (S (S (S h)))] ].

Definition growth_events (e : nat) : list EventDescription :=
  [ EventDesc "copy raw H -> D" e;
    EventDesc "memset mask" (e + 1);
    EventDesc "memset counter" (e + 2);
    EventDesc "mark exceptions" (e + 3);
    EventDesc "copy counter D -> H" (e + 4);
    EventDesc "treat_exceptions" (e + 6) ].

(** The instance a [dec] call leaves behind, whether it returns or
    raises. *)
Definition after_dec (s : ByteOffset) (d : device) (raw : list Byte.byte)
    (as_float : bool) (out : option cl_array) (nbexc : Z) : ByteOffset :=
  self (snd (dec s d raw as_float out nbexc)).

(** The request that [dec] recorded in its event list under [label]. *)
Definition request_of_event (st : state) (label : string) : option command :=
  ev ← List.find (λ e, bool_decide (ev_name e = label)) (f_events (locals st));
  queue (dev st) !! ev_event ev.

(** *** Sequences of calls on one instance *)

Record call := Call {
  c_raw : list Byte.byte;
  c_as_float : bool;
  c_out : option cl_array;
  c_nbexc : Z
}.

(** One call after the other on the same instance and device; a caller
    that catches what a call raises goes on with the instance as the call
    left it. *)
Fixpoint run_calls (s : ByteOffset) (d : device) (cs : list call)
    : ByteOffset * device :=
  match cs with
  | [] => (s, d)
  | c :: rest =>
      let st := snd (dec s d (c_raw c) (c_as_float c) (c_out c) (c_nbexc c)) in
      run_calls (self st) (dev st) rest
  end.

(** *** A concrete instance *)

Definition fresh_device : device := Device 0 [] [].

(** [ByteOffset(raw_size=4, dec_size=4, block_size=128)] on a fresh
    device. *)
Definition example_instance : ByteOffset :=
  match fst (__init__ Py3 4 4 (PyInt 128) false fresh_device) with
  | inr s => s
  | inl _ => Self 0 0 0 0 0 ∅ ∅ false []
  end.

Definition example_device : device :=
  snd (__init__ Py3 4 4 (PyInt 128) false fresh_device).

Definition stream (n : nat) : list Byte.byte := replicate n Byte.x01.

(** *** What an instance keeps true *)

(** The length and element type of the buffer [n] of [s]. *)
Definition buffer_shape (s : ByteOffset) (n : string) : option (Z * dtype) :=
  (λ a, (arr_size a, arr_dtype a)) <$> cl_mem s !! n.

(** Every array of [m] was allocated before [k], and no two names of [m]
    stand for the same allocation. *)
Definition separate (m : gmap string cl_array) (k : nat) : Prop :=
  (∀ n a, m !! n = Some a → (arr_handle a < k)%nat)
  ∧ ∀ n1 n2 a1 a2, m !! n1 = Some a1 → m !! n2 = Some a2 →
      arr_handle a1 = arr_handle a2 → n1 = n2.

(** A launch over a stream of [len] bytes is well shaped: one dimension,
    a global size that is a multiple of the positive local size, enough work
    items for the entries [fill_int_mem] is to write and for the bytes
    [mark_exceptions] is to look at. *)
Definition well_shaped (len : Z) (c : command) : Prop :=
  match c with
  | Launch name g l args =>
      ∃ gs ls, g = Tuple [gs] ∧ l = [ls] ∧ 0 < ls ∧ (ls | gs)
        ∧ (name = "fill_int_mem" →
             ∃ h size p st, args = [ABuffer h; AScalar size; AScalar p; AScalar st]
                            ∧ size <= gs)
        ∧ (name = "mark_exceptions" → len <= gs)
  | _ => True
  end.

(** The requests a call added to the queue [q] it started from. *)
Definition added (q : list command) (st : state) : list command :=
  drop (length q) (queue (dev st)).

End ByteOffsetCodec.

(** ** The OpenCL expressions handed to the scan kernel *)

Module CL.

Inductive expr :=
| Lit (z : Z)
| Var (x : string)
| Index (a : string) (i : expr)
| Field (e : expr) (f : string)
| Add (a b : expr)
| Int2 (x y : expr)
| Cond (c t e : expr).

Inductive stmt := Assign (lhs rhs : expr).

(** Concrete syntax, without blanks. *)
Fixpoint show (e : expr) : string :=
  match e with
  | Lit z => pretty z
  | Var x => x
  | Index a i => a +:+ "[" +:+ show i +:+ "]"
  | Field e f => show e +:+ "." +:+ f
  | Add a b => show a +:+ "+" +:+ show b
  | Int2 x y => "(int2)(" +:+ show x +:+ "," +:+ show y +:+ ")"
  | Cond c t e => show c +:+ "?" +:+ show t +:+ ":" +:+ show e
  end.

Definition show_stmt (s : stmt) : string :=
  match s with Assign l r => show l +:+ "=" +:+ show r +:+ ";" end.

Definition show_stmts (l : list stmt) : string :=
  foldr (λ s acc, show_stmt s +:+ acc) "" l.

(** A source text with its blanks taken out. *)
Fixpoint squeeze (s : string) : string :=
  match s with
  | EmptyString => EmptyString
  | String c rest =>
      if Ascii.is_space c then squeeze rest else String c (squeeze rest)
  end.

(** Values: [int] and [int2], both of 32-bit components. *)
Inductive val := VInt (z : Z) | VInt2 (x y : Z).

Record env := Env {
  arrays : gmap string (list Z);
  vars : gmap string val
}.

Fixpoint eval (ρ : env) (e : expr) : option val :=
  match e with
  | Lit z => Some (VInt z)
  | Var x => vars ρ !! x
  | Index a i =>
      match eval ρ i, arrays ρ !! a with
      | Some (VInt n), Some l =>
          if 0 <=? n then VInt <$> l !! Z.to_nat n else None
      | _, _ => None
      end
  | Field e f =>
      match eval ρ e with
      | Some (VInt2 x y) =>
          if String.eqb f "s0" then Some (VInt x)
          else if String.eqb f "s1" then Some (VInt y)
          else None
      | _ => None
      end
  | Add a b =>
      match eval ρ a, eval ρ b with
      | Some (VInt x), Some (VInt y) => Some (VInt (int32 (x + y)))
      | Some (VInt2 x0 x1), Some (VInt2 y0 y1) =>
          Some (VInt2 (int32 (x0 + y0)) (int32 (x1 + y1)))
      | _, _ => None
      end
  | Int2 x y =>
      match eval ρ x, eval ρ y with
      | Some (VInt a), Some (VInt b) => Some (VInt2 a b)
      | _, _ => None
      end
  | Cond c t e =>
      match eval ρ c with
      | Some (VInt z) => if z =? 0 then eval ρ e else eval ρ t
      | _ => None
      end
  end.

(** [a[i] = rhs;] inside the bounds of [a]. *)
Definition exec (ρ : env) (s : stmt) : option env :=
  match s with
  | Assign (Index a i) rhs =>
      match eval ρ i, eval ρ rhs, arrays ρ !! a with
      | Some (VInt n), Some (VInt v), Some l =>
          if (0 <=? n) && (n <? Z.of_nat (length l))
          then Some (Env (<[a := <[Z.to_nat n := v]> l]> (arrays ρ)) (vars ρ))
          else None
      | _, _, _ => None
      end
  | _ => None
  end.

Fixpoint exec_all (ρ : env) (l : list stmt) : option env :=
  match l with
  | [] => Some ρ
  | s :: rest =>
      match exec ρ s with
      | Some ρ' => exec_all ρ' rest
      | None => None
      end
  end.

(** The four texts of [_init_double_scan], as syntax. *)
Definition input_expr : expr :=
  Cond (Index "mask" (Var "i"))
       (Int2 (Lit 0) (Lit 0))
       (Int2 (Index "value" (Var "i")) (Lit 1)).

Definition scan_expr : expr := Add (Var "a") (Var "b").

Definition neutral : expr := Int2 (Lit 0) (Lit 0).

Definition output_statement : list stmt :=
  [ Assign (Index "value" (Var "i")) (Field (Var "item") "s0");
    Assign (Index "index" (Add (Var "i") (Lit 1))) (Field (Var "item") "s1") ].

(** What work item [i] of the scan sees: the arrays, its index, the two
    operands of the scan expression and the scanned item. *)
Definition scan_env (mask value index : list Z) (i : Z) (a b item : val) : env :=
  Env {[ "mask" := mask; "value" := value; "index" := index ]}
      {[ "i" := VInt i; "a" := a; "b" := b; "item" := item ]}.

(** The arrays an expression indexes. *)
Fixpoint array_reads (e : expr) : list string :=
  match e with
  | Lit _ | Var _ => []
  | Index a i => a :: array_reads i
  | Field e _ => array_reads e
  | Add a b | Int2 a b => array_reads a ++ array_reads b
  | Cond c t e => array_reads c ++ array_reads t ++ array_reads e
  end.

(** The name a parameter declaration such as ["__global int *value"]
    declares: what follows its last blank or star. *)
Fixpoint declared_name_from (acc s : string) : string :=
  match s with
  | EmptyString => acc
  | String c rest =>
      if Ascii.is_space c || Ascii.eqb c (Ascii.ascii_of_nat 42)
      then declared_name_from EmptyString rest
      else declared_name_from (acc +:+ String c EmptyString) rest
  end.

Definition declared_name (s : string) : string := declared_name_from EmptyString s.

(** The scan expression applied to two items. *)
Definition combine (x y : val) : option val :=
  eval (Env ∅ {[ "a" := x; "b" := y ]}) scan_expr.

End CL.

(** ** [silx/gui/plot/test/utils.py] *)

Module PlotHarness.

(** What a test case does that can be seen from outside, in order. *)
Inductive action :=
| CreatePlot
| Show
| WaitForWindowExposed
| MouseClick (x y : Z)
| ProcessEvents
| SetAttribute (attr : string)
| ConnectDestroyed
| Close
| DelPlot
| ReadPlotAlive (b : bool)
| QWait (ms : Z)
| LogError (msg : string)
| SuperSetUp
| SuperTearDown.

(** The Qt side: [g k] tells whether the [destroyed] signal of the plot
    is delivered the [k]-th time control passes to Qt. *)
Definition gui := nat → bool.

Record test_case := TestCase {
  plotAlive : bool;
  connected : bool;
  turns : nat;
  trace : list action
}.

Definition emit (a : action) (t : test_case) : test_case :=
  TestCase (plotAlive t) (connected t) (turns t) (trace t ++ [a]).

(** [__onPlotDestroyed] *)
Definition __onPlotDestroyed (t : test_case) : test_case :=
  TestCase false (connected t) (turns t) (trace t).

(** Control passes to Qt once: a connected slot runs if the signal is
    delivered. *)
Definition yield (g : gui) (t : test_case) : test_case :=
  let t' := TestCase (plotAlive t) (connected t) (S (turns t)) (trace t) in
  if connected t && g (turns t) then __onPlotDestroyed t' else t'.

Definition setUp (g : gui) (t : test_case) : test_case :=
  let t := emit SuperSetUp t in
  let t := emit CreatePlot t in
  let t := yield g (emit Show t) in
  let t := TestCase true (connected t) (turns t) (trace t) in
  let t := yield g (emit WaitForWindowExposed t) in
  yield g (emit (MouseClick 0 0) t).

(** The [for _ in range(n): ... else: ...] of [_waitForPlotClosed]. *)
Fixpoint poll (g : gui) (n : nat) (t : test_case) : test_case :=
  match n with
  | O => emit (LogError "Plot is still alive") t
  | S n' =>
      let t := emit (ReadPlotAlive (plotAlive t)) t in
      if negb (plotAlive t) then t
      else poll g n' (yield g (emit (QWait 10) t))
  end.

Definition _waitForPlotClosed (g : gui) (t : test_case) : test_case :=
  let t := emit (SetAttribute "WA_DeleteOnClose") t in
  let t := emit ConnectDestroyed
             (TestCase (plotAlive t) true (turns t) (trace t)) in
  let t := yield g (emit Close t) in
  let t := yield g (emit DelPlot t) in
  poll g 100 t.

Definition tearDown (g : gui) (t : test_case) : test_case :=
  let t := yield g (emit ProcessEvents t) in
  let t := _waitForPlotClosed g t in
  emit SuperTearDown t.



(** Qt delivers nothing the [n] times control passes to it from the
    [a]-th time on. *)
Fixpoint quiet (g : gui) (a n : nat) : bool :=
  match n with
  | O => true
  | S n' => negb (g a) && quiet g (S a) n'
  end.

End PlotHarness.

(** ** [silx/image/test/test_medianfilter.py] *)

Module MedianFilter.

Inductive engine := Cpp | Opencl.

Definition image := list (list Z).

(** Position [i] lies in the stretch of [k] positions centred on
    [centre]. *)
Definition near (k centre i : nat) : bool :=
  ((centre <=? i + k / 2) && (i + k / 2 <? centre + k))%nat.

(** The entries of [l] (whose first entry has position [i]) that lie in
    that stretch. *)
Fixpoint pick_from {A} (k centre i : nat) (l : list A) : list A :=
  match l with
  | [] => []
  | x :: rest =>
      (if near k centre i then [x] else []) ++ pick_from k centre (S i) rest
  end.

(** The pixels of [img] in the window of [kh] rows and [kw] columns
    centred on row [r], column [c]; positions outside the image are left
    out. *)
Definition window (img : image) (kh kw : nat) (r c : nat) : list Z :=
  pick_from kh r 0 img ≫= pick_from kw c 0.

(** The middle element of the sorted window. *)
Definition median (w : list Z) (default : Z) : Z :=
  nth (length w / 2)%nat (merge_sort Z.le w) default.

Definition is_extremum (w : list Z) (x : Z) : bool :=
  forallb (λ y, x <=? y) w || forallb (λ y, y <=? x) w.

(** Modelled from the spec: [medfilt2d] of silx.image.medianfilter, which
    is missing.  The spec has it take an image, a kernel
    size, a conditional flag and an engine name and give back an array of
    the shape of the image; a median filter puts at each position the
    median of the window around it, and the engines are to agree.  With
    the flag set only the pixels that are an extreme of their window are
    replaced; the spec covers the flag unset. *)
Definition medfilt2d (img : image) (kernel_size : nat * nat)
    (conditional : bool) (e : engine) : image :=
  let '(kh, kw) := kernel_size in
  imap (λ r row,
    imap (λ c x,
      let w := window img kh kw r c in
      if conditional && negb (is_extremum w x) then x
      else median w x) row) img.

Definition KERNEL : nat * nat := (1%nat, 1%nat).

(** The check of [testCppMedFilt2d] on a fixture [IMG]:
    [numpy.array_equal(res, IMG)]. *)
Definition testCppMedFilt2d (IMG : image) : bool :=
  let res := medfilt2d IMG KERNEL false Cpp in
  bool_decide (res = IMG).

(** *** The module around the tests *)

(** What [import scipy], [import scipy.misc], [import scipy.ndimage] leave
    in the name [scipy]: the package, whose [misc] has [ascent], [lena],
    both or neither, or [None] when one of the imports failed. *)
Record scipy_package := ScipyPackage {
  misc_has_ascent : bool;
  misc_has_lena : bool
}.

Inductive fixture := ascent | lena.

(** The body of the class: the choice of [IMG]. *)
Definition class_body (scipy : option scipy_package) : exn + fixture :=
  match scipy with
  | None => inl (AttributeError "misc")
  | Some p =>
      if misc_has_ascent p then inr ascent
      else if misc_has_lena p then inr lena
      else inl (AttributeError "lena")
  end.

Record test_class := TestClass {
  IMG : fixture;
  class_skip : option string
}.

(** [@unittest.skipUnless(scipy, "scipy not available")], applied to the
    class once its body has run. *)
Definition TestMedianFilterEngines (scipy : option scipy_package)
    : exn + test_class :=
  match class_body scipy with
  | inl e => inl e
  | inr f =>
      inr (TestClass f (match scipy with
                        | Some _ => None
                        | None => Some "scipy not available"
                        end))
  end.

Inductive outcome := Passed | Failed | Skipped (reason : string).

(** Running one test method: skipped with its class, or by its own guard,
    or else decided by its assertion. *)
Definition run_test (cls : test_class) (method_skip : option string)
    (assertion : bool) : outcome :=
  match class_skip cls, method_skip with
  | Some r, _ => Skipped r
  | None, Some r => Skipped r
  | None, None => if assertion then Passed else Failed
  end.

(** The check of [testOpenCLMedFilt2d] on a fixture [IMG]. *)
Definition testOpenCLMedFilt2d (IMG : image) : bool :=
  let res := medfilt2d IMG KERNEL false Opencl in
  bool_decide (res = IMG).

(** [suite()], run: the methods of the class in the order of their names.
    [pixels] gives the content of the fixtures, [ocl] tells whether
    [silx.opencl.common.ocl] is set. *)
Definition suite (scipy : option scipy_package) (ocl : bool)
    (pixels : fixture → image) : exn + list (string * outcome) :=
  match TestMedianFilterEngines scipy with
  | inl e => inl e
  | inr cls =>
      inr [ ("testCppMedFilt2d",
             run_test cls None (testCppMedFilt2d (pixels (IMG cls))));
            ("testOpenCLMedFilt2d",
             run_test cls (if ocl then None else Some "PyOpenCl is missing")
                      (testOpenCLMedFilt2d (pixels (IMG cls)))) ]
  end.

End MedianFilter.

(** * Properties *)

(** ** The constructor of [ByteOffset] *)

Section Constructor.
Import ByteOffsetCodec.

Lemma int32_id (z : Z) : - 2 ^ 31 <= z < 2 ^ 31 → int32 z = z.
Proof.
  intros Hz. unfold int32.
  rewrite Z.mod_small by lia. lia.
Qed.

Lemma int32_le (z : Z) : 0 <= z → int32 z <= z.
Proof.
  intros Hz. unfold int32.
  pose proof (Z.mod_le (z + 2 ^ 31) (2 ^ 32)). lia.
Qed.

(** With a power of two as work-group size the padded size is the size
    rounded down to a multiple of it, after adding [wg - 1]. *)
Lemma padded_pow2 (size k : Z) :
  0 <= k → padded size (2 ^ k) = 2 ^ k * ((size + 2 ^ k - 1) / 2 ^ k).
Proof.
  intros Hk. unfold padded.
  rewrite <- Z.ldiff_land.
  replace (2 ^ k - 1) with (Z.ones k) by (rewrite Z.ones_equiv; lia).
  rewrite Z.ldiff_ones_r by done.
  rewrite Z.shiftl_mul_pow2, Z.shiftr_div_pow2 by done. lia.
Qed.

(** C3: for a positive size and a power of two [wg], the padded size
    [(size + wg - 1) & ~(wg - 1)] that the constructor computes is at least
    the size, is a multiple of [wg], and exceeds the size by less than
    [wg]. *)
Theorem padded_rounds_up (size k : Z) :
  0 < size → 0 <= k →
  padded size (2 ^ k) >= size
  ∧ (2 ^ k | padded size (2 ^ k))
  ∧ padded size (2 ^ k) - size < 2 ^ k.
Proof.
  intros Hsize Hk. rewrite padded_pow2 by done.
  assert (0 < 2 ^ k) as Hw by (apply Z.pow_pos_nonneg; lia).
  pose proof (Z.mul_div_le (size + 2 ^ k - 1) (2 ^ k) Hw) as Hle.
  pose proof (Z.mul_succ_div_gt (size + 2 ^ k - 1) (2 ^ k) Hw) as Hgt.
  split; [lia|]. split; [|lia].
  exists ((size + 2 ^ k - 1) / 2 ^ k). lia.
Qed.

Lemma padded_rounds_up_witness :
  padded 1000 (2 ^ 7) >= 1000
  ∧ (2 ^ 7 | padded 1000 (2 ^ 7))
  ∧ padded 1000 (2 ^ 7) - 1000 < 2 ^ 7.
Proof. apply (padded_rounds_up 1000 7); lia. Defined.

(** The constructor stores the padded sizes of the sizes it stores, for
    the block size it stores. *)
Lemma init_stores_padded v raw dec bs prof d s d' :
  __init__ v raw dec bs prof d = (inr s, d') →
  raw_size s = int32 raw ∧ dec_size s = int32 dec
  ∧ padded_raw_size s = padded (raw_size s) (block_size s)
  ∧ padded_dec_size s = padded (dec_size s) (block_size s).
Proof.
  unfold __init__. destruct v, bs as [|n]; cbn; try discriminate.
  all: destruct (128 <? n); cbn; intros [= <- <-]; done.
Qed.

(** An integer hint is clamped to 128, under both language versions. *)
Lemma init_int_block_size v raw dec n prof d :
  ∃ s d', __init__ v raw dec (PyInt n) prof d = (inr s, d')
          ∧ block_size s = Z.min n 128.
Proof.
  unfold __init__. destruct v; cbn.
  all: destruct (Z.ltb_spec 128 n); cbn; eexists _, _; (split; [done|cbn; lia]).
Qed.

(** C4 (at the default hint): with [block_size=None] the constructor
    raises [TypeError] under both language versions and no instance, hence
    no block size, comes out of it. *)
Theorem init_default_block_size_raises v raw dec prof d :
  ∃ what, __init__ v raw dec PyNone prof d = (inl (TypeError what), d).
Proof. destruct v; cbn; eexists; reflexivity. Qed.

End Constructor.

(** ** [ByteOffset.dec] *)

Section Dec.
Import ByteOffsetCodec.

Lemma well_formed_buffer s n :
  well_formed s = true → n ∈ buffer_names → is_Some (cl_mem s !! n).
Proof.
  unfold well_formed. intros [Hb _]%andb_prop Hn.
  rewrite forallb_forall in Hb.
  apply list_elem_of_In, Hb in Hn. by apply bool_decide_eq_true in Hn.
Qed.

Lemma well_formed_kernel s n :
  well_formed s = true → n ∈ kernel_names → kernels s !! n = Some (Compiled n).
Proof.
  unfold well_formed. intros [_ Hk]%andb_prop Hn.
  rewrite forallb_forall in Hk.
  apply list_elem_of_In, Hk in Hn. by apply bool_decide_eq_true in Hn.
Qed.

(** Running the monad, one statement at a time. *)

Lemma bind_run {S A B} (m : M S A) (f : A → M S B) (st : S) :
  (m ≫= f) st =
    match m st with
    | (inl e, st') => (inl e, st')
    | (inr a, st') => f a st'
    end.
Proof. reflexivity. Qed.

Lemma ret_run {S A} (a : A) (st : S) : (mret a : M S A) st = (inr a, st).
Proof. reflexivity. Qed.

Lemma gets_run {S A} (f : S → A) (st : S) : gets f st = (inr (f st), st).
Proof. reflexivity. Qed.

Lemma cl_mem_item_run n a st :
  cl_mem (self st) !! n = Some a → cl_mem_item n st = (inr a, st).
Proof. intros H. unfold cl_mem_item. rewrite bind_run, gets_run. cbn. by rewrite H. Qed.

Lemma cl_mem_item_missing n st :
  cl_mem (self st) !! n = None → cl_mem_item n st = (inl (KeyError n), st).
Proof. intros H. unfold cl_mem_item. rewrite bind_run, gets_run. cbn. by rewrite H. Qed.

Lemma kernel_attr_run n o st :
  kernels (self st) !! n = Some o → kernel_attr n st = (inr o, st).
Proof. intros H. unfold kernel_attr. rewrite bind_run, gets_run. cbn. by rewrite H. Qed.

Lemma enqueue_run c st :
  enqueue c st =
    (inr (length (queue (dev st))),
     State (self st)
           (Device (next_handle (dev st)) (queue (dev st) ++ [c]) (log_info (dev st)))
           (locals st)).
Proof. reflexivity. Qed.

Lemma call_kernel_run n g l args st :
  call_kernel (Compiled n) g l args st = enqueue (Launch n g l args) st.
Proof. reflexivity. Qed.

Lemma events_append_run label evt st :
  events_append label evt st =
    (inr tt,
     State (self st) (dev st)
           (Frame (f_events (locals st) ++ [EventDesc label evt]) (f_wg (locals st)))).
Proof. reflexivity. Qed.

Lemma load_wg_run st z :
  f_wg (locals st) = Some z → load_wg st = (inr z, st).
Proof. intros H. unfold load_wg. rewrite bind_run, gets_run. cbn. by rewrite H. Qed.

Lemma load_wg_unbound st :
  f_wg (locals st) = None → load_wg st = (inl (UnboundLocalError "wg"), st).
Proof. intros H. unfold load_wg. rewrite bind_run, gets_run. cbn. by rewrite H. Qed.

Lemma load_global_unbound name st :
  name ∉ module_globals → load_global name st = (inl (NameError name), st).
Proof. intros H. unfold load_global. by rewrite bool_decide_eq_false_2. Qed.

Ltac proj := cbn [self dev locals f_events f_wg next_handle queue log_info
                  block_size raw_size dec_size padded_raw_size padded_dec_size
                  cl_mem kernels profile events
                  set_raw_size set_padded_raw_size set_cl_mem set_events
                  arr_handle arr_size arr_dtype compose].

(** One statement: split the sequence, run its head with [tac], go on. *)
Ltac step tac := rewrite bind_run; tac; cbv beta iota; proj.

Ltac step_gets := step ltac:(rewrite gets_run).
Ltac step_item := step ltac:(erewrite cl_mem_item_run by (proj; eassumption)).
Ltac step_kernel := step ltac:(erewrite kernel_attr_run by (proj; eassumption)).
Ltac step_enqueue := step ltac:(rewrite ?call_kernel_run, enqueue_run).
Ltac step_event := step ltac:(rewrite events_append_run).

Lemma grow_run raw st :
  grow raw st =
    (inr tt,
     let len := Z.of_nat (length raw) in
     let s := self st in
     State (set_cl_mem (grown_buffers (next_handle (dev st)) len ∪ cl_mem s)
              (set_padded_raw_size (padded len (block_size s))
                 (set_raw_size len s)))
           (Device (4 + next_handle (dev st)) (queue (dev st))
                   (log_info (dev st) ++ [("increase raw buffer size to %s", len)]))
           (Frame (f_events (locals st)) (Some (block_size s)))).
Proof. reflexivity. Qed.

Lemma grown_lookup h len (m : gmap string cl_array) :
  (grown_buffers h len ∪ m) !! "raw" = Some (ClArray h len int8)
  ∧ (grown_buffers h len ∪ m) !! "mask" = Some (ClArray (S h) len int32_t)
  ∧ (grown_buffers h len ∪ m) !! "exceptions" = Some (ClArray (S (S h)) len int32_t)
  ∧ (grown_buffers h len ∪ m) !! "values" = Some (ClArray (S (S (S h))) len int32_t).
Proof.
  unfold grown_buffers. repeat split.
  all: apply lookup_union_Some_l; by simplify_map_eq.
Qed.

Lemma grown_lookup_other h len (m : gmap string cl_array) n :
  n ∉ ["raw"; "mask"; "exceptions"; "values"] →
  (grown_buffers h len ∪ m) !! n = m !! n.
Proof.
  intros Hn. apply lookup_union_r. unfold grown_buffers.
  rewrite !lookup_insert_ne, lookup_singleton_ne; [done|..]; set_solver.
Qed.

Lemma dec_no_growth s d raw as_float out nbexc a :
  well_formed s = true →
  cl_mem s !! "raw" = Some a →
  len_raw raw <= raw_size s →
  dec s d raw as_float out nbexc =
    (inl (UnboundLocalError "wg"),
     State s
           (Device (next_handle d)
                   (queue d ++ [CopyHostToDevice (arr_handle a) raw])
                   (log_info d))
           (Frame [EventDesc "copy raw H -> D" (length (queue d))] None)).
Proof.
  intros Hwf Hraw Hlen.
  pose proof (well_formed_kernel s "fill_int_mem" Hwf ltac:(compute_done)) as Hfill.
  unfold dec, dec_body.
  step_gets.
  rewrite Z.gtb_ltb, (proj2 (Z.ltb_ge _ _) Hlen).
  step ltac:(rewrite ret_run).
  step_item. step_enqueue. step_event.
  step_kernel. step_gets.
  step ltac:(rewrite load_wg_unbound by done).
  reflexivity.
Qed.

Lemma choose_output_run as_float out st fl it :
  kernels (self st) !! "copy_result_float" = Some (Compiled "copy_result_float") →
  kernels (self st) !! "copy_result_int" = Some (Compiled "copy_result_int") →
  cl_mem (self st) !! "data_float" = Some fl →
  cl_mem (self st) !! "data_int" = Some it →
  ∃ o k, choose_output as_float out st = (inr (o, Compiled k), st)
         ∧ o = match out with
               | Some o' => o'
               | None => if as_float then fl else it
               end.
Proof.
  intros Hkf Hki Hf Hi. unfold choose_output.
  destruct out as [o|]; [destruct (arr_dtype o)|destruct as_float].
  all: repeat (first [step_item | step_kernel]); rewrite ret_run; eauto.
Qed.

Lemma dec_growth s d raw as_float out nbexc c :
  well_formed s = true →
  cl_mem s !! "counter" = Some c →
  raw_size s < len_raw raw →
  dec s d raw as_float out nbexc =
    (inl (NameError "cumsummed_d"),
     let len := Z.of_nat (length raw) in
     let h := next_handle d in
     State (set_cl_mem (grown_buffers h len ∪ cl_mem s)
              (set_padded_raw_size (padded len (block_size s))
                 (set_raw_size len s)))
           (Device (4 + h)
                   (queue d ++ growth_requests s raw nbexc h (arr_handle c)
                                               (length (queue d)))
                   (log_info d ++ [("increase raw buffer size to %s", len)]))
           (Frame (growth_events (length (queue d))) (Some (block_size s)))).
Proof.
  intros Hwf Hc Hlen.
  pose proof (well_formed_kernel s "fill_int_mem" Hwf ltac:(compute_done)) as Hfill.
  pose proof (well_formed_kernel s "mark_exceptions" Hwf ltac:(compute_done)) as Hmark.
  pose proof (well_formed_kernel s "treat_exceptions" Hwf ltac:(compute_done)) as Htreat.
  pose proof (well_formed_kernel s "copy_result_float" Hwf ltac:(compute_done)) as Hcf.
  pose proof (well_formed_kernel s "copy_result_int" Hwf ltac:(compute_done)) as Hci.
  destruct (well_formed_buffer s "data_float" Hwf ltac:(compute_done)) as [fl Hfl].
  destruct (well_formed_buffer s "data_int" Hwf ltac:(compute_done)) as [it Hit].
  destruct (grown_lookup (next_handle d) (Z.of_nat (length raw)) (cl_mem s))
    as (Hg_raw & Hg_mask & Hg_exc & Hg_val).
  pose proof (grown_lookup_other (next_handle d) (Z.of_nat (length raw)) (cl_mem s)) as Hother.
  pose proof (Hother "counter" ltac:(compute_done)) as Hg_c. rewrite Hc in Hg_c.
  pose proof (Hother "data_float" ltac:(compute_done)) as Hg_fl. rewrite Hfl in Hg_fl.
  pose proof (Hother "data_int" ltac:(compute_done)) as Hg_it. rewrite Hit in Hg_it.
  clear Hother.
  unfold dec, dec_body.
  step_gets.
  rewrite Z.gtb_ltb, (proj2 (Z.ltb_lt _ _) Hlen).
  step ltac:(rewrite grow_run).
  step_item. step_enqueue. step_event.
  step_kernel. step_gets. step ltac:(erewrite load_wg_run by (proj; reflexivity)).
  step_item. step_gets. step_enqueue. step_event.
  step_kernel. step_item. step_enqueue. step_event.
  step_kernel. step_gets. step ltac:(erewrite load_wg_run by (proj; reflexivity)).
  step_item. step_gets. step_item. step_item. step_item. step_item.
  step_enqueue. step_event.
  step_item. step_enqueue. step_event. step_enqueue.
  step_kernel. step_item. step_item. step_item. step_item.
  step_enqueue. step_event.
  rewrite bind_run.
  edestruct (choose_output_run as_float out) as (o & k & -> & _);
    [proj; eassumption..|].
  cbv beta iota; proj.
  step_gets. step ltac:(erewrite load_wg_run by (proj; reflexivity)).
  step ltac:(rewrite load_global_unbound by compute_done).
  unfold growth_requests, growth_events. cbv zeta.
  rewrite !length_app. cbn [length].
  rewrite <- !app_assoc. cbn [app].
  replace (int32 0) with 0 by reflexivity.
  replace (int32 1) with 1 by reflexivity.
  rewrite <- !Nat.add_assoc. cbn [Nat.add].
  reflexivity.
Qed.

(** The constructor leaves a well-formed instance. *)
Lemma init_well_formed v raw dec bs prof d s d' :
  __init__ v raw dec bs prof d = (inr s, d') → well_formed s = true.
Proof.
  unfold __init__. destruct v, bs as [|n]; cbn; try discriminate.
  all: destruct (128 <? n); cbn; intros [= <- <-]; by vm_compute.
Qed.

Lemma example_instance_well_formed : well_formed example_instance = true.
Proof. by vm_compute. Qed.

Lemma well_formed_grown s h len z1 z2 :
  well_formed s = true →
  well_formed (set_cl_mem (grown_buffers h len ∪ cl_mem s)
                 (set_padded_raw_size z1 (set_raw_size z2 s))) = true.
Proof.
  unfold well_formed. intros [Hb Hk]%andb_prop.
  apply andb_true_intro. split; [|exact Hk].
  rewrite forallb_forall in Hb |- *. intros n Hn.
  specialize (Hb n Hn). apply bool_decide_eq_true in Hb.
  apply bool_decide_eq_true. proj.
  apply lookup_union_is_Some. by right.
Qed.

(** [dec] keeps it well-formed. *)
Lemma dec_well_formed s d raw as_float out nbexc :
  well_formed s = true →
  well_formed (after_dec s d raw as_float out nbexc) = true.
Proof.
  intros Hwf. unfold after_dec.
  destruct (well_formed_buffer s "raw" Hwf ltac:(compute_done)) as [a Ha].
  destruct (well_formed_buffer s "counter" Hwf ltac:(compute_done)) as [c Hc].
  destruct (Z.le_gt_cases (len_raw raw) (raw_size s)) as [Hle|Hgt].
  - by rewrite (dec_no_growth _ _ _ _ _ _ a).
  - rewrite (dec_growth _ _ _ _ _ _ c) by done. cbn [snd]. proj.
    by apply well_formed_grown.
Qed.

Lemma run_calls_well_formed cs s d :
  well_formed s = true → well_formed (fst (run_calls s d cs)) = true.
Proof.
  revert s d. induction cs as [|c cs IH]; intros s d Hwf; [done|].
  cbn [run_calls]. apply IH. by apply dec_well_formed.
Qed.

Lemma len_raw_le raw : len_raw raw <= Z.of_nat (length raw).
Proof. apply int32_le. lia. Qed.

Lemma len_raw_small raw :
  Z.of_nat (length raw) < 2 ^ 31 → len_raw raw = Z.of_nat (length raw).
Proof. intros H. apply int32_id. lia. Qed.

(** Whatever the instance, a [dec] call raises: its last launch reads
    names that nothing binds. *)
Lemma bind_raises {S A B} (m : M S A) (f : A → M S B) :
  (∀ a st, ∃ e, fst (f a st) = inl e) → ∀ st, ∃ e, fst ((m ≫= f) st) = inl e.
Proof.
  intros Hf st. rewrite bind_run. destruct (m st) as [[e|a] st']; eauto.
Qed.

Lemma bind_head_raises {S A B} (m : M S A) (f : A → M S B) :
  (∀ st, ∃ e, fst (m st) = inl e) → ∀ st, ∃ e, fst ((m ≫= f) st) = inl e.
Proof.
  intros Hm st. rewrite bind_run. destruct (Hm st) as [e He].
  destruct (m st) as [[e'|a] st']; cbn in He; [eauto|discriminate].
Qed.

Lemma dec_never_returns s d raw as_float out nbexc :
  ∃ e, fst (dec s d raw as_float out nbexc) = inl e.
Proof.
  unfold dec. generalize (State s d (Frame [] None)). unfold dec_body.
  repeat lazymatch goal with
  | |- ∀ st, ∃ e, fst ((load_global _ ≫= _) st) = inl e =>
      apply bind_head_raises; intros st;
      rewrite load_global_unbound by compute_done; eauto
  | |- ∀ st, ∃ e, fst ((_ ≫= _) st) = inl e =>
      apply bind_raises; intros ?; try case_match
  end.
Qed.

(** C1 (what the code does instead): on a well-formed instance every
    [dec] call raises instead of returning an output buffer, and the only
    kernels it has launched by then are the fill, mark-exceptions and
    treat-exceptions kernels: neither the double scan nor a copy kernel is
    ever launched. *)
Theorem dec_raises_before_scan s d raw as_float out nbexc :
  well_formed s = true →
  let r := dec s d raw as_float out nbexc in
  (∃ e, fst r = inl e)
  ∧ ∃ new, queue (dev (snd r)) = queue d ++ new
      ∧ ∀ k g l a, Launch k g l a ∈ new →
          k ∈ ["fill_int_mem"; "mark_exceptions"; "treat_exceptions"].
Proof.
  intros Hwf r. split; [apply dec_never_returns|]. subst r.
  destruct (well_formed_buffer s "raw" Hwf ltac:(compute_done)) as [a Ha].
  destruct (well_formed_buffer s "counter" Hwf ltac:(compute_done)) as [c Hc].
  destruct (Z.le_gt_cases (len_raw raw) (raw_size s)) as [Hle|Hgt].
  - rewrite (dec_no_growth _ _ _ _ _ _ a) by done. cbn [snd]. proj.
    eexists. split; [done|]. intros k g l args Hin.
    apply list_elem_of_singleton in Hin. discriminate.
  - rewrite (dec_growth _ _ _ _ _ _ c) by done. cbn [snd]. proj.
    eexists. split; [done|]. intros k g l args Hin.
    unfold growth_requests in Hin.
    repeat (apply elem_of_cons in Hin as [[= -> _ _ _]|Hin] || apply elem_of_cons in Hin as [[=]|Hin]).
    all: try (by apply elem_of_nil in Hin).
    all: compute_done.
Qed.

Lemma dec_raises_before_scan_witness :
  let r := dec example_instance example_device (stream 5) false None 0 in
  (∃ e, fst r = inl e)
  ∧ ∃ new, queue (dev (snd r)) = queue example_device ++ new
      ∧ ∀ k g l a, Launch k g l a ∈ new →
          k ∈ ["fill_int_mem"; "mark_exceptions"; "treat_exceptions"].
Proof.
  apply (dec_raises_before_scan example_instance example_device (stream 5) false None 0).
  vm_compute. reflexivity.
Defined.

(** C2: when the stream is no longer than [raw_size] the growth branch
    is skipped, [wg] stays unbound, and the call raises
    [UnboundLocalError] for [wg] with the copy of the stream as its only
    request: no kernel has been launched.  A call that takes the growth
    branch has [wg] bound. *)
Theorem dec_without_growth_unbound_wg s d raw as_float out nbexc :
  well_formed s = true →
  Z.of_nat (length raw) <= raw_size s →
  let r := dec s d raw as_float out nbexc in
  fst r = inl (UnboundLocalError "wg")
  ∧ f_wg (locals (snd r)) = None
  ∧ (∃ h, queue (dev (snd r)) = queue d ++ [CopyHostToDevice h raw])
  ∧ f_events (locals (snd r)) = [EventDesc "copy raw H -> D" (length (queue d))]
  ∧ ∀ raw', raw_size s < len_raw raw' →
      f_wg (locals (snd (dec s d raw' as_float out nbexc))) = Some (block_size s).
Proof.
  intros Hwf Hlen r. subst r.
  destruct (well_formed_buffer s "raw" Hwf ltac:(compute_done)) as [a Ha].
  destruct (well_formed_buffer s "counter" Hwf ltac:(compute_done)) as [c Hc].
  pose proof (len_raw_le raw) as Hle.
  rewrite (dec_no_growth _ _ _ _ _ _ a) by (done || lia). cbn [fst snd]. proj.
  repeat split; eauto.
  intros raw' Hgt. by rewrite (dec_growth _ _ _ _ _ _ c).
Qed.

Lemma dec_without_growth_unbound_wg_witness :
  let r := dec example_instance example_device (stream 3) false None 0 in
  fst r = inl (UnboundLocalError "wg")
  ∧ f_wg (locals (snd r)) = None
  ∧ (∃ h, queue (dev (snd r)) = queue example_device ++ [CopyHostToDevice h (stream 3)])
  ∧ f_events (locals (snd r)) =
      [EventDesc "copy raw H -> D" (length (queue example_device))]
  ∧ ∀ raw', raw_size example_instance < len_raw raw' →
      f_wg (locals (snd (dec example_instance example_device raw' false None 0)))
      = Some (block_size example_instance).
Proof.
  apply (dec_without_growth_unbound_wg example_instance example_device
           (stream 3) false None 0).
  - vm_compute. reflexivity.
  - vm_compute. discriminate.
Defined.

(** C5: a [dec] call whose stream is longer than [raw_size] (the length
    being the one [dec] compares, [len_raw]) puts four arrays allocated
    during the call, of the length of the stream, under "raw", "mask",
    "exceptions" and "values", stores that length as [raw_size] and its
    padding as [padded_raw_size], and leaves every other entry of [cl_mem]
    (so "counter", "data_float", "data_int"), [dec_size] and
    [padded_dec_size] as they were. *)
Theorem dec_growth_frame s d raw as_float out nbexc :
  well_formed s = true →
  raw_size s < len_raw raw →
  let st := snd (dec s d raw as_float out nbexc) in
  let s' := self st in
  let len := Z.of_nat (length raw) in
  (∀ n, n ∈ ["raw"; "mask"; "exceptions"; "values"] →
     ∃ a, cl_mem s' !! n = Some a ∧ arr_size a = len
          ∧ (next_handle d ≤ arr_handle a < next_handle (dev st))%nat)
  ∧ raw_size s' = len
  ∧ padded_raw_size s' = padded len (block_size s')
  ∧ (∀ n, n ∉ ["raw"; "mask"; "exceptions"; "values"] →
       cl_mem s' !! n = cl_mem s !! n)
  ∧ cl_mem s' !! "counter" = cl_mem s !! "counter"
  ∧ cl_mem s' !! "data_float" = cl_mem s !! "data_float"
  ∧ cl_mem s' !! "data_int" = cl_mem s !! "data_int"
  ∧ dec_size s' = dec_size s
  ∧ padded_dec_size s' = padded_dec_size s
  ∧ block_size s' = block_size s.
Proof.
  intros Hwf Hgt st s' len. subst st s' len.
  destruct (well_formed_buffer s "counter" Hwf ltac:(compute_done)) as [c Hc].
  rewrite (dec_growth _ _ _ _ _ _ c) by done. cbn [snd]. proj.
  destruct (grown_lookup (next_handle d) (Z.of_nat (length raw)) (cl_mem s))
    as (Hraw & Hmask & Hexc & Hval).
  pose proof (grown_lookup_other (next_handle d) (Z.of_nat (length raw)) (cl_mem s))
    as Hother.
  split.
  { intros n Hn.
    repeat (apply elem_of_cons in Hn as [->|Hn]); [..|by apply elem_of_nil in Hn].
    all: eexists; (split; [eassumption|]); cbn; lia. }
  repeat split; try done.
  all: apply Hother; compute_done.
Qed.

Lemma dec_growth_frame_witness :
  let st := snd (dec example_instance example_device (stream 5) false None 0) in
  let s' := self st in
  let len := Z.of_nat (length (stream 5)) in
  (∀ n, n ∈ ["raw"; "mask"; "exceptions"; "values"] →
     ∃ a, cl_mem s' !! n = Some a ∧ arr_size a = len
          ∧ (next_handle example_device ≤ arr_handle a < next_handle (dev st))%nat)
  ∧ raw_size s' = len
  ∧ padded_raw_size s' = padded len (block_size s')
  ∧ (∀ n, n ∉ ["raw"; "mask"; "exceptions"; "values"] →
       cl_mem s' !! n = cl_mem example_instance !! n)
  ∧ cl_mem s' !! "counter" = cl_mem example_instance !! "counter"
  ∧ cl_mem s' !! "data_float" = cl_mem example_instance !! "data_float"
  ∧ cl_mem s' !! "data_int" = cl_mem example_instance !! "data_int"
  ∧ dec_size s' = dec_size example_instance
  ∧ padded_dec_size s' = padded_dec_size example_instance
  ∧ block_size s' = block_size example_instance.
Proof.
  apply (dec_growth_frame example_instance example_device (stream 5) false None 0).
  - vm_compute. reflexivity.
  - vm_compute. reflexivity.
Defined.

Lemma dec_raw_size_step s d raw as_float out nbexc :
  well_formed s = true →
  let st := snd (dec s d raw as_float out nbexc) in
  (raw_size s < len_raw raw →
     raw_size (self st) = Z.of_nat (length raw)
     ∧ raw_size s < raw_size (self st))
  ∧ (len_raw raw <= raw_size s →
     self st = s ∧ next_handle (dev st) = next_handle d).
Proof.
  intros Hwf st. subst st.
  destruct (well_formed_buffer s "raw" Hwf ltac:(compute_done)) as [a Ha].
  destruct (well_formed_buffer s "counter" Hwf ltac:(compute_done)) as [c Hc].
  pose proof (len_raw_le raw). split; intros Hcmp.
  - rewrite (dec_growth _ _ _ _ _ _ c) by done. cbn [snd]. proj. lia.
  - by rewrite (dec_no_growth _ _ _ _ _ _ a).
Qed.

Lemma run_calls_raw_size cs s d :
  well_formed s = true → raw_size s <= raw_size (fst (run_calls s d cs)).
Proof.
  revert s d. induction cs as [|c cs IH]; intros s d Hwf; [done|].
  cbn [run_calls].
  pose proof (dec_raw_size_step s d (c_raw c) (c_as_float c) (c_out c) (c_nbexc c) Hwf)
    as [Hgrow Hkeep].
  pose proof (dec_well_formed s d (c_raw c) (c_as_float c) (c_out c) (c_nbexc c) Hwf)
    as Hwf'.
  unfold after_dec in Hwf'.
  etrans; [|apply IH; exact Hwf'].
  destruct (Z.le_gt_cases (len_raw (c_raw c)) (raw_size s)) as [Hle|Hgt].
  - destruct (Hkeep Hle) as [-> _]. done.
  - destruct (Hgrow Hgt). lia.
Qed.

(** C6: after any sequence of [dec] calls on a well-formed instance
    [raw_size] is no smaller than before, and a further call raises it
    exactly when its stream (as [dec] measures it) is longer than
    [raw_size], to the length of that stream; a stream no longer than
    [raw_size] leaves the instance as it was and allocates nothing. *)
Theorem raw_size_never_decreases s d cs c :
  well_formed s = true →
  let s1 := fst (run_calls s d cs) in
  let d1 := snd (run_calls s d cs) in
  let st := snd (dec s1 d1 (c_raw c) (c_as_float c) (c_out c) (c_nbexc c)) in
  let s2 := self st in
  raw_size s <= raw_size s1
  ∧ raw_size s1 <= raw_size s2
  ∧ (raw_size s1 < raw_size s2 ↔ raw_size s1 < len_raw (c_raw c))
  ∧ (raw_size s1 < raw_size s2 →
       raw_size s1 < Z.of_nat (length (c_raw c))
       ∧ raw_size s2 = Z.of_nat (length (c_raw c)))
  ∧ (Z.of_nat (length (c_raw c)) <= raw_size s1 →
       s2 = s1 ∧ next_handle (dev st) = next_handle d1).
Proof.
  intros Hwf s1 d1 st s2.
  pose proof (run_calls_raw_size cs s d Hwf) as Hmono.
  pose proof (run_calls_well_formed cs s d Hwf) as Hwf1.
  pose proof (dec_raw_size_step s1 d1 (c_raw c) (c_as_float c) (c_out c) (c_nbexc c) Hwf1)
    as [Hgrow Hkeep].
  pose proof (len_raw_le (c_raw c)) as Hlen.
  fold st in Hgrow, Hkeep. fold s2 in Hgrow, Hkeep. fold s1 in Hmono.
  destruct (Z.le_gt_cases (len_raw (c_raw c)) (raw_size s1)) as [Hle|Hgt].
  - destruct (Hkeep Hle) as [Heq Hh]. rewrite Heq.
    repeat split; try done; lia.
  - destruct (Hgrow Hgt) as [Heq Hlt].
    repeat split; try done; lia.
Qed.

Lemma raw_size_never_decreases_witness :
  let s := example_instance in
  let d := example_device in
  let cs := [Call (stream 3) false None 0; Call (stream 9) true None 1] in
  let c := Call (stream 6) false None 0 in
  let s1 := fst (run_calls s d cs) in
  let d1 := snd (run_calls s d cs) in
  let st := snd (dec s1 d1 (c_raw c) (c_as_float c) (c_out c) (c_nbexc c)) in
  let s2 := self st in
  raw_size s <= raw_size s1
  ∧ raw_size s1 <= raw_size s2
  ∧ (raw_size s1 < raw_size s2 ↔ raw_size s1 < len_raw (c_raw c))
  ∧ (raw_size s1 < raw_size s2 →
       raw_size s1 < Z.of_nat (length (c_raw c))
       ∧ raw_size s2 = Z.of_nat (length (c_raw c)))
  ∧ (Z.of_nat (length (c_raw c)) <= raw_size s1 →
       s2 = s1 ∧ next_handle (dev st) = next_handle d1).
Proof.
  apply (raw_size_never_decreases example_instance example_device
           [Call (stream 3) false None 0; Call (stream 9) true None 1]
           (Call (stream 6) false None 0)).
  vm_compute. reflexivity.
Defined.

(** In a [dec] call that takes the growth branch, the request right
    before the launch of [mark_exceptions] is the launch of [fill_int_mem]
    with global size [(1,)] and local size [(1,)] on the counter with the
    scalars 1, 0, 0, recorded under "memset counter".  What that launch
    stores is for the text of the kernel to say. *)
Lemma memset_counter_launch s d raw as_float out nbexc :
  well_formed s = true →
  raw_size s < len_raw raw →
  let st := snd (dec s d raw as_float out nbexc) in
  let e := length (queue d) in
  ∃ c g l a,
    cl_mem s !! "counter" = Some c
    ∧ queue (dev st) !! (e + 2)%nat =
        Some (Launch "fill_int_mem" (Tuple [1]) [1]
                [ABuffer (arr_handle c); AScalar 1; AScalar 0; AScalar 0])
    ∧ request_of_event st "memset counter" = queue (dev st) !! (e + 2)%nat
    ∧ queue (dev st) !! (e + 3)%nat = Some (Launch "mark_exceptions" g l a).
Proof.
  intros Hwf Hgt st e. subst st e.
  destruct (well_formed_buffer s "counter" Hwf ltac:(compute_done)) as [c Hc].
  rewrite (dec_growth _ _ _ _ _ _ c) by done. cbn [snd].
  set (e := length (queue d)).
  set (reqs := growth_requests s raw nbexc (next_handle d) (arr_handle c) e).
  assert (∀ k, (queue d ++ reqs) !! (e + k)%nat = reqs !! k) as Hlook.
  { intros k. rewrite lookup_app_r by lia. f_equal. lia. }
  eexists c, _, _, _. proj.
  split; [done|]. split; [by rewrite Hlook|].
  split; [reflexivity|]. by rewrite Hlook.
Qed.

(** C7 (what the code does instead): a [dec] call whose stream is no
    longer than [raw_size] raises [UnboundLocalError] for [wg] before any
    kernel is launched: nothing is recorded under "memset counter", no
    request of the call is a launch, and the counter is not written. *)
Theorem memset_counter_not_reached s d raw as_float out nbexc :
  well_formed s = true →
  Z.of_nat (length raw) <= raw_size s →
  let r := dec s d raw as_float out nbexc in
  fst r = inl (UnboundLocalError "wg")
  ∧ request_of_event (snd r) "memset counter" = None
  ∧ Forall (λ c, ∀ k g l a, c ≠ Launch k g l a) (added (queue d) (snd r)).
Proof.
  intros Hwf Hlen r. subst r.
  destruct (well_formed_buffer s "raw" Hwf ltac:(compute_done)) as [a Ha].
  pose proof (len_raw_le raw) as Hle.
  rewrite (dec_no_growth _ _ _ _ _ _ a) by (done || lia).
  cbn [fst snd]. split; [done|]. split; [reflexivity|].
  unfold added. cbn [dev queue]. rewrite drop_app_length.
  apply Forall_singleton. intros k g l args. discriminate.
Qed.

Lemma memset_counter_not_reached_witness :
  let r := dec example_instance example_device (stream 3) false None 0 in
  fst r = inl (UnboundLocalError "wg")
  ∧ request_of_event (snd r) "memset counter" = None
  ∧ Forall (λ c, ∀ k g l a, c ≠ Launch k g l a)
           (added (queue example_device) (snd r)).
Proof.
  apply (memset_counter_not_reached example_instance example_device
           (stream 3) false None 0).
  - vm_compute. reflexivity.
  - vm_compute. discriminate.
Defined.

(** A stream whose length does not fit 32 bits: [dec] compares the wrapped
    length and skips the growth. *)
Lemma dec_wrapped_length_skips_growth (raw : list Byte.byte) k :
  Z.of_nat (length raw) = 2 ^ 31 + k → 0 <= k < 2 ^ 31 →
  let st := snd (dec example_instance example_device raw false None 0) in
  raw_size example_instance < Z.of_nat (length raw)
  ∧ self st = example_instance
  ∧ next_handle (dev st) = next_handle example_device.
Proof.
  intros Hlen Hk st. subst st.
  assert (raw_size example_instance = 4) as Hrs by reflexivity.
  assert (len_raw raw = k - 2 ^ 31) as Hwrap.
  { unfold len_raw, int32. rewrite Hlen.
    replace (2 ^ 31 + k + 2 ^ 31) with (k + 1 * 2 ^ 32) by lia.
    rewrite Z.mod_add by lia. rewrite Z.mod_small by lia. lia. }
  split; [lia|].
  apply (dec_raw_size_step example_instance example_device raw false None 0
           example_instance_well_formed).
  lia.
Qed.

Lemma length_stream n : length (stream n) = n.
Proof. apply length_replicate. Qed.

(** C5 (counterexample): a stream of 2^31 bytes is longer than the
    [raw_size] 4 of the example instance, yet the call reallocates nothing
    and leaves [raw_size], [padded_raw_size] and every buffer as they
    were. *)
Lemma growth_skipped_at_2_31_bytes :
  let raw := stream (Z.to_nat (2 ^ 31)) in
  let st := snd (dec example_instance example_device raw false None 0) in
  raw_size example_instance < Z.of_nat (length raw)
  ∧ cl_mem (self st) = cl_mem example_instance
  ∧ raw_size (self st) = raw_size example_instance
  ∧ padded_raw_size (self st) = padded_raw_size example_instance
  ∧ next_handle (dev st) = next_handle example_device.
Proof.
  intros raw st.
  assert (Z.of_nat (length raw) = 2 ^ 31 + 0) as Hlen.
  { unfold raw. rewrite length_stream, Z2Nat.id; [ring|]. apply Z.pow_nonneg. lia. }
  assert (0 <= 0 < 2 ^ 31) as Hk by lia.
  destruct (dec_wrapped_length_skips_growth raw 0 Hlen Hk) as (Hlong & Hself & Hnext).
  fold st in Hself, Hnext. rewrite Hself.
  split; [exact Hlong|]. split; [reflexivity|]. split; [reflexivity|].
  split; [reflexivity|exact Hnext].
Qed.

(** C6 (counterexample): a stream of 2^31 + 7 bytes is strictly longer
    than the capacity 4 of the example instance, yet [raw_size] does not
    grow. *)
Lemma raw_size_stays_at_longer_stream :
  let raw := stream (Z.to_nat (2 ^ 31 + 7)) in
  let st := snd (dec example_instance example_device raw false None 0) in
  raw_size example_instance < Z.of_nat (length raw)
  ∧ ¬ raw_size example_instance < raw_size (self st).
Proof.
  intros raw st.
  assert (Z.of_nat (length raw) = 2 ^ 31 + 7) as Hlen.
  { unfold raw. rewrite length_stream, Z2Nat.id; [reflexivity|].
    apply Z.add_nonneg_nonneg; [apply Z.pow_nonneg|]; lia. }
  assert (0 <= 7 < 2 ^ 31) as Hk by lia.
  destruct (dec_wrapped_length_skips_growth raw 7 Hlen Hk) as (Hlong & Hself & _).
  fold st in Hself. rewrite Hself. split; [exact Hlong|]. apply Z.lt_irrefl.
Qed.

End Dec.

(** ** [ByteOffset._init_double_scan] *)

Section DoubleScan.
Import ByteOffsetCodec CL.

Lemma eval_input_expr mask value index i a b item m v :
  0 <= i →
  mask !! Z.to_nat i = Some m →
  value !! Z.to_nat i = Some v →
  eval (scan_env mask value index i a b item) input_expr
  = Some (if m =? 0 then VInt2 v 1 else VInt2 0 0).
Proof.
  intros Hi Hm Hv. unfold input_expr, scan_env. cbn [eval vars arrays].
  rewrite !lookup_insert_eq.
  rewrite lookup_insert_ne, lookup_insert_eq by done.
  rewrite (proj2 (Z.leb_le 0 i) Hi), Hm, Hv. cbn.
  by destruct (m =? 0).
Qed.

Lemma eval_scan_expr mask value index i a0 a1 b0 b1 item :
  eval (scan_env mask value index i (VInt2 a0 a1) (VInt2 b0 b1) item) scan_expr
  = Some (VInt2 (int32 (a0 + b0)) (int32 (a1 + b1))).
Proof. reflexivity. Qed.

Lemma exec_output_statement mask value index i a b s0 s1 :
  0 <= i → i + 1 < 2 ^ 31 →
  i < Z.of_nat (length value) →
  i + 1 < Z.of_nat (length index) →
  ∃ ρ, exec_all (scan_env mask value index i a b (VInt2 s0 s1)) output_statement
       = Some ρ
       ∧ arrays ρ !! "value" = Some (<[Z.to_nat i := s0]> value)
       ∧ arrays ρ !! "index" = Some (<[Z.to_nat (i + 1) := s1]> index)
       ∧ arrays ρ !! "mask" = Some mask.
Proof.
  intros Hi Hi31 Hv Hx. unfold output_statement, scan_env.
  cbn [exec_all exec eval vars arrays].
  simplify_map_eq.
  rewrite (proj2 (Z.leb_le 0 i) Hi), (proj2 (Z.ltb_lt _ _) Hv).
  cbn [andb vars arrays]. simplify_map_eq.
  rewrite int32_id by lia.
  rewrite (proj2 (Z.leb_le 0 (i + 1))) by lia.
  rewrite (proj2 (Z.ltb_lt _ _) Hx). cbn [andb].
  eexists. split; [done|]. cbn [arrays]. by simplify_map_eq.
Qed.

(** C8: the kernel [_init_double_scan] asks for is described by four
    texts.  Blanks apart, they are the concrete syntax of: the input
    expression that gives [(0,0)] where [mask[i]] is set and
    [(value[i],1)] elsewhere; the sum of the two operands, component by
    component in 32 bits; the neutral element [(0,0)]; and the statements
    storing the first component of the item in [value[i]] and the second
    in [index[i+1]].  The class of the kernel is [GenericScanKernel]
    exactly when the block size is at least 64, and
    [GenericDebugScanKernel] otherwise. *)
Theorem double_scan_kernel s :
  let k := _init_double_scan s in
  squeeze (sk_input_expr k) = show input_expr
  ∧ squeeze (sk_scan_expr k) = show scan_expr
  ∧ squeeze (sk_neutral k) = show neutral
  ∧ squeeze (sk_output_statement k) = show_stmts output_statement
  ∧ (∀ mask value index i a b item m v,
       0 <= i → mask !! Z.to_nat i = Some m → value !! Z.to_nat i = Some v →
       eval (scan_env mask value index i a b item) input_expr
       = Some (if m =? 0 then VInt2 v 1 else VInt2 0 0))
  ∧ (∀ mask value index i a0 a1 b0 b1 item,
       eval (scan_env mask value index i (VInt2 a0 a1) (VInt2 b0 b1) item) scan_expr
       = Some (VInt2 (int32 (a0 + b0)) (int32 (a1 + b1))))
  ∧ (∀ ρ, eval ρ neutral = Some (VInt2 0 0))
  ∧ (∀ mask value index i a b s0 s1,
       0 <= i → i + 1 < 2 ^ 31 →
       i < Z.of_nat (length value) → i + 1 < Z.of_nat (length index) →
       ∃ ρ, exec_all (scan_env mask value index i a b (VInt2 s0 s1)) output_statement
            = Some ρ
            ∧ arrays ρ !! "value" = Some (<[Z.to_nat i := s0]> value)
            ∧ arrays ρ !! "index" = Some (<[Z.to_nat (i + 1) := s1]> index)
            ∧ arrays ρ !! "mask" = Some mask)
  ∧ (sk_class k = GenericScanKernel ↔ 64 <= block_size s)
  ∧ (sk_class k = GenericDebugScanKernel ↔ block_size s < 64).
Proof.
  intros k. subst k. unfold _init_double_scan.
  split; [by destruct (block_size s >=? 64)|].
  split; [by destruct (block_size s >=? 64)|].
  split; [by destruct (block_size s >=? 64)|].
  split; [by destruct (block_size s >=? 64)|].
  split; [apply eval_input_expr|].
  split; [apply eval_scan_expr|].
  split; [done|].
  split; [apply exec_output_statement|].
  rewrite Z.geb_leb.
  destruct (Z.leb_spec 64 (block_size s)); cbn [sk_class]; split; split;
    first [done | lia].
Qed.

End DoubleScan.

(** ** The tear-down of [PlotWidgetTestCase] *)

Section Harness.
Import PlotHarness.


Lemma plotAlive_emit a t : plotAlive (emit a t) = plotAlive t.
Proof. reflexivity. Qed.




End Harness.

(** ** The median filter with a window of one pixel *)

Section Median.
Import MedianFilter.

Lemma pick_from_past {A} (l : list A) (c i : nat) :
  (c < i)%nat → pick_from 1 c i l = [].
Proof.
  revert i. induction l as [|x l IH]; intros i Hi; [done|].
  cbn [pick_from]. rewrite IH by lia. unfold near.
  replace (i + 1 / 2 <? c + 1)%nat with false; [by rewrite andb_false_r|].
  symmetry. apply Nat.ltb_ge. cbn. lia.
Qed.

Lemma pick_from_one {A} (l : list A) (i j : nat) (x : A) :
  l !! j = Some x → pick_from 1 (i + j) i l = [x].
Proof.
  revert i j. induction l as [|y l IH]; intros i j Hj; [done|].
  cbn [pick_from]. destruct j as [|j].
  - injection Hj as ->. rewrite pick_from_past by lia. unfold near.
    replace (i + 0 <=? i + 1 / 2)%nat with true
      by (symmetry; apply Nat.leb_le; cbn; lia).
    replace (i + 1 / 2 <? i + 0 + 1)%nat with true
      by (symmetry; apply Nat.ltb_lt; cbn; lia).
    done.
  - replace (i + S j)%nat with (S i + j)%nat by lia.
    rewrite (IH (S i) j) by done. unfold near.
    replace (S i + j <=? i + 1 / 2)%nat with false; [done|].
    symmetry. apply Nat.leb_gt. cbn. lia.
Qed.

Lemma window_one (img : image) r c row x :
  img !! r = Some row → row !! c = Some x → window img 1 1 r c = [x].
Proof.
  intros Hr Hc. unfold window.
  pose proof (pick_from_one img 0 r row Hr) as Hrow.
  pose proof (pick_from_one row 0 c x Hc) as Hpix.
  rewrite Nat.add_0_l in Hrow, Hpix.
  rewrite Hrow. cbn [mbind list_bind].
  rewrite Hpix. done.
Qed.

Lemma median_one x d : median [x] d = x.
Proof. reflexivity. Qed.

Lemma imap_same {A} (f : nat → A → A) (l : list A) :
  (∀ i x, l !! i = Some x → f i x = x) → imap f l = l.
Proof.
  revert f. induction l as [|y l IH]; intros f Hf; [done|].
  cbn [imap]. rewrite (Hf 0%nat y) by done. f_equal.
  apply IH. intros i x Hi. apply (Hf (S i) x Hi).
Qed.

(** C10: with kernel size (1,1), the conditional flag unset and the
    engine "cpp", the median filter gives back the image it is handed,
    whatever the image (the fixture among them): the window of each pixel
    holds that pixel alone.  So the check of [testCppMedFilt2d] holds. *)
Theorem medfilt2d_one_pixel_window (IMG : image) :
  medfilt2d IMG KERNEL false Cpp = IMG
  ∧ testCppMedFilt2d IMG = true.
Proof.
  assert (medfilt2d IMG KERNEL false Cpp = IMG) as Heq.
  { unfold medfilt2d, KERNEL. apply imap_same. intros r row Hr.
    apply imap_same. intros c x Hc.
    rewrite (window_one IMG r c row x Hr Hc). cbn [andb]. apply median_one. }
  split; [exact Heq|].
  unfold testCppMedFilt2d. by apply bool_decide_eq_true.
Qed.

End Median.

(** ** What the constructor establishes and [dec] keeps *)

Section Instance.
Import ByteOffsetCodec.

(** What a [dec] call leaves behind, by branch. *)
Lemma dec_cases s d raw as_float out nbexc :
  well_formed s = true →
  let r := dec s d raw as_float out nbexc in
  let len := Z.of_nat (length raw) in
  (len_raw raw <= raw_size s
   ∧ fst r = inl (UnboundLocalError "wg")
   ∧ self (snd r) = s
   ∧ next_handle (dev (snd r)) = next_handle d
   ∧ log_info (dev (snd r)) = log_info d
   ∧ (∃ h, added (queue d) (snd r) = [CopyHostToDevice h raw])
   ∧ length (f_events (locals (snd r))) = 1%nat)
  ∨ (raw_size s < len_raw raw
     ∧ fst r = inl (NameError "cumsummed_d")
     ∧ self (snd r)
       = set_cl_mem (grown_buffers (next_handle d) len ∪ cl_mem s)
           (set_padded_raw_size (padded len (block_size s)) (set_raw_size len s))
     ∧ next_handle (dev (snd r)) = (4 + next_handle d)%nat
     ∧ log_info (dev (snd r))
       = log_info d ++ [("increase raw buffer size to %s", len)]
     ∧ (∃ hc, added (queue d) (snd r)
              = growth_requests s raw nbexc (next_handle d) hc (length (queue d)))
     ∧ length (f_events (locals (snd r))) = 6%nat).
Proof.
  intros Hwf r len. subst r len.
  destruct (well_formed_buffer s "raw" Hwf ltac:(compute_done)) as [a Ha].
  destruct (well_formed_buffer s "counter" Hwf ltac:(compute_done)) as [c Hc].
  destruct (Z.le_gt_cases (len_raw raw) (raw_size s)) as [Hle|Hgt]; [left|right].
  - rewrite (dec_no_growth _ _ _ _ _ _ a) by done. unfold added. cbn.
    rewrite drop_app_length. eauto 10.
  - rewrite (dec_growth _ _ _ _ _ _ c) by done. unfold added. cbn.
    rewrite drop_app_length. repeat split; eauto.
Qed.

(** A property of instance and device that every call keeps holds after
    any sequence of calls. *)
Lemma run_calls_keeps (P : ByteOffset → device → Prop) :
  (∀ s d c, well_formed s = true → P s d →
     let st := snd (dec s d (c_raw c) (c_as_float c) (c_out c) (c_nbexc c)) in
     P (self st) (dev st)) →
  ∀ cs s d, well_formed s = true → P s d →
    P (fst (run_calls s d cs)) (snd (run_calls s d cs)).
Proof.
  intros Hstep cs. induction cs as [|c cs IH]; intros s d Hwf HP; [done|].
  cbn [run_calls]. apply IH.
  - apply (dec_well_formed s d (c_raw c) (c_as_float c) (c_out c) (c_nbexc c) Hwf).
  - by apply Hstep.
Qed.

(** The instance the constructor gives, spelled out. *)
Lemma init_inv v raw dec bs prof d s d' :
  __init__ v raw dec bs prof d = (inr s, d') →
  ∃ n, bs = PyInt n
    ∧ block_size s = Z.min n 128
    ∧ raw_size s = int32 raw ∧ dec_size s = int32 dec
    ∧ padded_raw_size s = padded (int32 raw) (Z.min n 128)
    ∧ padded_dec_size s = padded (int32 dec) (Z.min n 128)
    ∧ profile s = prof ∧ events s = []
    ∧ kernels s = <["scan" := BoundMethod "_init_double_scan"]> compile_kernels
    ∧ (cl_mem s, d')
      = allocate_buffers
          [ BufferDesc "raw" (int32 raw) int8;
            BufferDesc "mask" (int32 raw) int32_t;
            BufferDesc "values" (int32 raw) int32_t;
            BufferDesc "exceptions" (int32 raw) int32_t;
            BufferDesc "counter" 1 int32_t;
            BufferDesc "data_float" (int32 dec) float32;
            BufferDesc "data_int" (int32 dec) int32_t ] ∅ d.
Proof.
  unfold __init__. destruct v, bs as [|n]; cbn; try discriminate.
  all: destruct (Z.ltb_spec 128 n); cbn; intros [= <- <-]; exists n; cbn.
  all: repeat split; try done; f_equal; lia.
Qed.




Lemma buffer_shape_grown s h len z n :
  buffer_shape
    (set_cl_mem (grown_buffers h len ∪ cl_mem s) (set_padded_raw_size z (set_raw_size len s)))
    n
  = if bool_decide (n = "raw") then Some (len, int8)
    else if bool_decide (n ∈ ["mask"; "exceptions"; "values"]) then Some (len, int32_t)
    else buffer_shape s n.
Proof.
  unfold buffer_shape. cbn [cl_mem set_cl_mem].
  destruct (grown_lookup h len (cl_mem s)) as (Hr & Hm & He & Hv).
  case_bool_decide as H1; [subst; by rewrite Hr|].
  case_bool_decide as H2.
  - repeat (apply elem_of_cons in H2 as [->|H2]); [..|by apply elem_of_nil in H2].
    all: by rewrite ?Hm, ?He, ?Hv.
  - rewrite grown_lookup_other; [done|].
    intros Hin. apply elem_of_cons in Hin as [->|Hin]; [done|]. done.
Qed.

(** X2: the lengths and element types of the buffers follow the stored
    sizes, from the constructor on and after any sequence of [dec] calls:
    "raw" holds [raw_size] bytes, "mask", "values" and "exceptions" hold
    [raw_size] 32-bit integers, "counter" one, "data_float" and "data_int"
    hold [dec_size] entries. *)
Theorem buffers_follow_sizes v raw dec bs prof d0 s d cs :
  __init__ v raw dec bs prof d0 = (inr s, d) →
  let s' := fst (run_calls s d cs) in
  buffer_shape s' "raw" = Some (raw_size s', int8)
  ∧ buffer_shape s' "mask" = Some (raw_size s', int32_t)
  ∧ buffer_shape s' "values" = Some (raw_size s', int32_t)
  ∧ buffer_shape s' "exceptions" = Some (raw_size s', int32_t)
  ∧ buffer_shape s' "counter" = Some (1, int32_t)
  ∧ buffer_shape s' "data_float" = Some (dec_size s', float32)
  ∧ buffer_shape s' "data_int" = Some (dec_size s', int32_t).
Proof.
  intros Hinit s'. subst s'.
  pose proof (init_well_formed _ _ _ _ _ _ _ _ Hinit) as Hwf.
  apply (run_calls_keeps (λ s _,
    buffer_shape s "raw" = Some (raw_size s, int8)
    ∧ buffer_shape s "mask" = Some (raw_size s, int32_t)
    ∧ buffer_shape s "values" = Some (raw_size s, int32_t)
    ∧ buffer_shape s "exceptions" = Some (raw_size s, int32_t)
    ∧ buffer_shape s "counter" = Some (1, int32_t)
    ∧ buffer_shape s "data_float" = Some (dec_size s, float32)
    ∧ buffer_shape s "data_int" = Some (dec_size s, int32_t))); [|done|].
  - clear. intros s d c Hwf (H1 & H2 & H3 & H4 & H5 & H6 & H7) st. subst st.
    destruct (dec_cases s d (c_raw c) (c_as_float c) (c_out c) (c_nbexc c) Hwf)
      as [(_ & _ & -> & _)|(_ & _ & -> & _)]; [done|].
    rewrite !buffer_shape_grown. cbn. done.
  - apply init_inv in Hinit as (n & _ & _ & Hr & Hd & _ & _ & _ & _ & _ & Hmem).
    cbn in Hmem. injection Hmem as Hmem _.
    unfold buffer_shape. rewrite Hmem, Hr, Hd.
    generalize (int32 raw) (int32 dec) (next_handle d0). intros zr zd h.
    by vm_compute.
Qed.

Lemma example_instance_constructed :
  __init__ Py3 4 4 (PyInt 128) false fresh_device = (inr example_instance, example_device).
Proof. by vm_compute. Qed.

Lemma buffers_follow_sizes_witness :
  let s' := fst (run_calls example_instance example_device
                   [Call (stream 9) false None 0]) in
  buffer_shape s' "raw" = Some (raw_size s', int8)
  ∧ buffer_shape s' "mask" = Some (raw_size s', int32_t)
  ∧ buffer_shape s' "values" = Some (raw_size s', int32_t)
  ∧ buffer_shape s' "exceptions" = Some (raw_size s', int32_t)
  ∧ buffer_shape s' "counter" = Some (1, int32_t)
  ∧ buffer_shape s' "data_float" = Some (dec_size s', float32)
  ∧ buffer_shape s' "data_int" = Some (dec_size s', int32_t).
Proof.
  apply (buffers_follow_sizes Py3 4 4 (PyInt 128) false fresh_device
           example_instance example_device [Call (stream 9) false None 0]).
  vm_compute. reflexivity.
Defined.

Lemma padded_pow2_bounds size k :
  0 <= k →
  (2 ^ k | padded size (2 ^ k))
  ∧ size <= padded size (2 ^ k) < size + 2 ^ k.
Proof.
  intros Hk. rewrite padded_pow2 by done.
  assert (0 < 2 ^ k) as Hw by (apply Z.pow_pos_nonneg; lia).
  pose proof (Z.mul_div_le (size + 2 ^ k - 1) (2 ^ k) Hw).
  pose proof (Z.mul_succ_div_gt (size + 2 ^ k - 1) (2 ^ k) Hw).
  split; [|lia]. exists ((size + 2 ^ k - 1) / 2 ^ k). lia.
Qed.

(** X3: when the capped hint is a power of two, the padded sizes are, from
    the constructor on and after any sequence of [dec] calls, the stored
    sizes rounded up to the next multiple of the block size. *)
Theorem padded_sizes_stay_rounded v raw dec n prof d0 s d cs k :
  __init__ v raw dec (PyInt n) prof d0 = (inr s, d) →
  Z.min n 128 = 2 ^ k → 0 <= k →
  let s' := fst (run_calls s d cs) in
  let wg := block_size s' in
  wg = 2 ^ k
  ∧ padded_raw_size s' = padded (raw_size s') wg
  ∧ padded_dec_size s' = padded (dec_size s') wg
  ∧ (wg | padded_raw_size s')
  ∧ raw_size s' <= padded_raw_size s' < raw_size s' + wg
  ∧ (wg | padded_dec_size s')
  ∧ dec_size s' <= padded_dec_size s' < dec_size s' + wg.
Proof.
  intros Hinit Hpow Hk s' wg. subst s' wg.
  pose proof (init_well_formed _ _ _ _ _ _ _ _ Hinit) as Hwf.
  assert (let s' := fst (run_calls s d cs) in
          block_size s' = 2 ^ k
          ∧ padded_raw_size s' = padded (raw_size s') (block_size s')
          ∧ padded_dec_size s' = padded (dec_size s') (block_size s')) as (Hb & Hr & Hd).
  { apply (run_calls_keeps (λ s _,
      block_size s = 2 ^ k
      ∧ padded_raw_size s = padded (raw_size s) (block_size s)
      ∧ padded_dec_size s = padded (dec_size s) (block_size s))); [|done|].
    - clear. intros s d c Hwf (H1 & H2 & H3) st. subst st.
      destruct (dec_cases s d (c_raw c) (c_as_float c) (c_out c) (c_nbexc c) Hwf)
        as [(_ & _ & -> & _)|(_ & _ & -> & _)]; done.
    - apply init_inv in Hinit as (n' & [= <-] & -> & -> & -> & -> & -> & _).
      by rewrite Hpow. }
  rewrite Hr, Hd, Hb.
  destruct (padded_pow2_bounds (raw_size (fst (run_calls s d cs))) k Hk).
  destruct (padded_pow2_bounds (dec_size (fst (run_calls s d cs))) k Hk).
  done.
Qed.

Lemma padded_sizes_stay_rounded_witness :
  let s' := fst (run_calls example_instance example_device
                   [Call (stream 9) false None 0]) in
  let wg := block_size s' in
  wg = 2 ^ 7
  ∧ padded_raw_size s' = padded (raw_size s') wg
  ∧ padded_dec_size s' = padded (dec_size s') wg
  ∧ (wg | padded_raw_size s')
  ∧ raw_size s' <= padded_raw_size s' < raw_size s' + wg
  ∧ (wg | padded_dec_size s')
  ∧ dec_size s' <= padded_dec_size s' < dec_size s' + wg.
Proof.
  apply (padded_sizes_stay_rounded Py3 4 4 128 false fresh_device
           example_instance example_device [Call (stream 9) false None 0] 7).
  - vm_compute. reflexivity.
  - reflexivity.
  - lia.
Defined.

Lemma separate_insert m k n h sz t :
  separate m k → (k ≤ h)%nat → separate (<[n := ClArray h sz t]> m) (S h).
Proof.
  intros [Hlt Hinj] Hk. split.
  - intros n' a [[-> <-]|[_ Ha]]%lookup_insert_Some; cbn; [lia|].
    apply Hlt in Ha. lia.
  - intros n1 n2 a1 a2 [[-> <-]|[Hn1 Ha1]]%lookup_insert_Some
                       [[-> <-]|[Hn2 Ha2]]%lookup_insert_Some Heq; cbn in Heq.
    + done.
    + apply Hlt in Ha2. lia.
    + apply Hlt in Ha1. lia.
    + by apply (Hinj n1 n2 a1 a2).
Qed.

Lemma allocate_buffers_separate bs mem d :
  separate mem (next_handle d) →
  separate (fst (allocate_buffers bs mem d))
           (next_handle (snd (allocate_buffers bs mem d))).
Proof.
  revert mem d. induction bs as [|b bs IH]; intros mem d Hsep; [done|].
  cbn [allocate_buffers array_empty]. apply IH. cbn [next_handle].
  by apply (separate_insert _ (next_handle d)).
Qed.

Lemma grown_as_inserts h len (m : gmap string cl_array) :
  grown_buffers h len ∪ m
  = <["values" := ClArray (S (S (S h))) len int32_t]>
      (<["exceptions" := ClArray (S (S h)) len int32_t]>
         (<["mask" := ClArray (S h) len int32_t]>
            (<["raw" := ClArray h len int8]> m))).
Proof.
  unfold grown_buffers.
  rewrite <- !insert_union_l, <- insert_union_singleton_l.
  apply map_eq. intros i. rewrite !lookup_insert.
  repeat case_decide; subst; done.
Qed.

Lemma separate_grown m h len :
  separate m h → separate (grown_buffers h len ∪ m) (4 + h).
Proof.
  intros Hsep. rewrite grown_as_inserts.
  apply (separate_insert _ (S (S (S h)))); [|lia].
  apply (separate_insert _ (S (S h))); [|lia].
  apply (separate_insert _ (S h)); [|lia].
  by apply (separate_insert _ h).
Qed.

(** X4: from the constructor on and after any sequence of [dec] calls, no
    two names of [cl_mem] stand for the same allocation, and every array of
    [cl_mem] was allocated before the next free handle of the device: the
    arrays of a growth never overlap the counter or the output arrays. *)
Theorem buffers_never_alias v raw dec bs prof d0 s d cs :
  __init__ v raw dec bs prof d0 = (inr s, d) →
  let s' := fst (run_calls s d cs) in
  let d' := snd (run_calls s d cs) in
  (∀ n1 n2 a1 a2, cl_mem s' !! n1 = Some a1 → cl_mem s' !! n2 = Some a2 →
     n1 ≠ n2 → arr_handle a1 ≠ arr_handle a2)
  ∧ ∀ n a, cl_mem s' !! n = Some a → (arr_handle a < next_handle d')%nat.
Proof.
  intros Hinit s' d'. subst s' d'.
  assert (separate ∅ (next_handle d0)) as Hempty
    by (split; intros *; rewrite lookup_empty; discriminate).
  pose proof (init_well_formed _ _ _ _ _ _ _ _ Hinit) as Hwf.
  assert (separate (cl_mem (fst (run_calls s d cs)))
                   (next_handle (snd (run_calls s d cs)))) as [Hlt Hinj].
  { apply (run_calls_keeps (λ s d, separate (cl_mem s) (next_handle d))); [|done|].
    - clear. intros s d c Hwf Hsep st. subst st.
      destruct (dec_cases s d (c_raw c) (c_as_float c) (c_out c) (c_nbexc c) Hwf)
        as [(_ & _ & -> & -> & _)|(_ & _ & -> & -> & _)]; [done|].
      cbn [cl_mem set_cl_mem]. by apply separate_grown.
    - apply init_inv in Hinit as (n & _ & _ & _ & _ & _ & _ & _ & _ & _ & Hmem).
      match type of Hmem with _ = allocate_buffers ?bs ?m ?d1 =>
        pose proof (allocate_buffers_separate bs m d1 Hempty) as Hsep end.
      by rewrite <- Hmem in Hsep. }
  split; [|done].
  intros n1 n2 a1 a2 H1 H2 Hne Heq. apply Hne. by apply (Hinj n1 n2 a1 a2).
Qed.

Lemma buffers_never_alias_witness :
  let s' := fst (run_calls example_instance example_device
                   [Call (stream 9) false None 0]) in
  let d' := snd (run_calls example_instance example_device
                   [Call (stream 9) false None 0]) in
  (∀ n1 n2 a1 a2, cl_mem s' !! n1 = Some a1 → cl_mem s' !! n2 = Some a2 →
     n1 ≠ n2 → arr_handle a1 ≠ arr_handle a2)
  ∧ ∀ n a, cl_mem s' !! n = Some a → (arr_handle a < next_handle d')%nat.
Proof.
  apply (buffers_never_alias Py3 4 4 (PyInt 128) false fresh_device
           example_instance example_device [Call (stream 9) false None 0]).
  vm_compute. reflexivity.
Defined.

(** X5: no sequence of [dec] calls changes the block size, the
    decompressed size and its padding, the kernel table or the profiling
    flag, and none adds to the profiling log [self.events], not even with
    profiling switched on: every call raises before the log is extended. *)
Theorem dec_keeps_configuration s d cs :
  well_formed s = true →
  let s' := fst (run_calls s d cs) in
  block_size s' = block_size s
  ∧ dec_size s' = dec_size s
  ∧ padded_dec_size s' = padded_dec_size s
  ∧ kernels s' = kernels s
  ∧ profile s' = profile s
  ∧ events s' = events s.
Proof.
  intros Hwf s'. subst s'.
  apply (run_calls_keeps (λ s0 _,
    block_size s0 = block_size s ∧ dec_size s0 = dec_size s
    ∧ padded_dec_size s0 = padded_dec_size s ∧ kernels s0 = kernels s
    ∧ profile s0 = profile s ∧ events s0 = events s)); [|done|done].
  clear. intros s0 d c Hwf H st. subst st.
  destruct (dec_cases s0 d (c_raw c) (c_as_float c) (c_out c) (c_nbexc c) Hwf)
    as [(_ & _ & -> & _)|(_ & _ & -> & _)]; done.
Qed.

Lemma dec_keeps_configuration_witness :
  let s' := fst (run_calls example_instance example_device
                   [Call (stream 3) true None 0; Call (stream 9) false None 2]) in
  block_size s' = block_size example_instance
  ∧ dec_size s' = dec_size example_instance
  ∧ padded_dec_size s' = padded_dec_size example_instance
  ∧ kernels s' = kernels example_instance
  ∧ profile s' = profile example_instance
  ∧ events s' = events example_instance.
Proof.
  apply (dec_keeps_configuration example_instance example_device
           [Call (stream 3) true None 0; Call (stream 9) false None 2]).
  vm_compute. reflexivity.
Defined.



(** X8: with a power of two as block size, every kernel launch of a
    [dec] call has a one-dimensional global size that is a multiple of its
    positive local size; a launch of [fill_int_mem] has at least as many
    work items as entries to write, and the launch of [mark_exceptions] at
    least as many as the stream has bytes. *)
Theorem dec_launch_geometry s d raw as_float out nbexc k :
  well_formed s = true →
  block_size s = 2 ^ k → 0 <= k →
  Forall (well_shaped (Z.of_nat (length raw)))
         (added (queue d) (snd (dec s d raw as_float out nbexc))).
Proof.
  intros Hwf Hbs Hk.
  assert (0 < 2 ^ k) as Hw by (apply Z.pow_pos_nonneg; lia).
  destruct (padded_pow2_bounds (Z.of_nat (length raw)) k Hk) as [Hdiv Hbound].
  destruct (dec_cases s d raw as_float out nbexc Hwf)
    as [(_ & _ & _ & _ & _ & [h ->] & _)|(_ & _ & _ & _ & _ & [hc ->] & _)].
  - by repeat constructor.
  - unfold growth_requests. rewrite Hbs.
    repeat (apply Forall_cons; split); [..|apply Forall_nil]; cbn [well_shaped]; try done.
    all: eexists _, _; split; [reflexivity|]; split; [reflexivity|].
    + split; [done|]. split; [done|]. split; [|done].
      intros _. eexists _, _, _, _. split; [reflexivity|lia].
    + split; [lia|]. split; [by exists 1|]. split; [|done].
      intros _. eexists _, _, _, _. split; [reflexivity|lia].
    + split; [done|]. split; [done|]. split; [done|]. intros _. lia.
    + split; [lia|]. split; [exists nbexc; lia|]. done.
Qed.

Lemma dec_launch_geometry_witness :
  Forall (well_shaped (Z.of_nat (length (stream 9))))
         (added (queue example_device)
            (snd (dec example_instance example_device (stream 9) false None 2))).
Proof.
  apply (dec_launch_geometry example_instance example_device (stream 9) false None 2 7).
  - vm_compute. reflexivity.
  - reflexivity.
  - lia.
Defined.

(** X9: over any sequence of [dec] calls every growth is logged and
    nothing else is: the device has handed out four arrays per record added
    to the log, every added record is the resize message, and the lengths
    reported lie above the [raw_size] the sequence started from and up to
    the [raw_size] it ends with. *)
Theorem every_growth_is_logged s d cs :
  well_formed s = true →
  let s' := fst (run_calls s d cs) in
  let d' := snd (run_calls s d cs) in
  ∃ new, log_info d' = log_info d ++ new
    ∧ next_handle d' = (4 * length new + next_handle d)%nat
    ∧ Forall (λ r, fst r = "increase raw buffer size to %s"
                   ∧ raw_size s < snd r <= raw_size s') new
    ∧ (new = [] → raw_size s' = raw_size s).
Proof.
  intros Hwf s' d'. subst s' d'.
  cut (∃ new, log_info (snd (run_calls s d cs)) = log_info d ++ new
      ∧ next_handle (snd (run_calls s d cs)) = (4 * length new + next_handle d)%nat
      ∧ Forall (λ r, fst r = "increase raw buffer size to %s"
                     ∧ raw_size s < snd r <= raw_size (fst (run_calls s d cs))) new
      ∧ (new = [] → raw_size (fst (run_calls s d cs)) = raw_size s)
      ∧ raw_size s <= raw_size (fst (run_calls s d cs))).
  { intros (new & H1 & H2 & H3 & H4 & _). by exists new. }
  apply (run_calls_keeps (λ s0 d0,
    ∃ new, log_info d0 = log_info d ++ new
      ∧ next_handle d0 = (4 * length new + next_handle d)%nat
      ∧ Forall (λ r, fst r = "increase raw buffer size to %s"
                     ∧ raw_size s < snd r <= raw_size s0) new
      ∧ (new = [] → raw_size s0 = raw_size s)
      ∧ raw_size s <= raw_size s0)); [|done|].
  - clear. intros s0 d0 c Hwf0 (new & Hlog & Hnext & Hall & Hnil & Hmono) st. subst st.
    pose proof (len_raw_le (c_raw c)) as Hlen.
    destruct (dec_cases s0 d0 (c_raw c) (c_as_float c) (c_out c) (c_nbexc c) Hwf0)
      as [(_ & _ & -> & -> & -> & _)|(Hgt & _ & -> & -> & -> & _)].
    + exists new. done.
    + exists (new ++ [("increase raw buffer size to %s", Z.of_nat (length (c_raw c)))]).
      cbn [raw_size set_cl_mem set_padded_raw_size set_raw_size].
      split; [by rewrite Hlog, app_assoc|].
      split; [rewrite length_app; cbn; lia|].
      split; [|split; [by intros []%app_eq_nil|lia]].
      apply Forall_app. split.
      * eapply Forall_impl; [exact Hall|]. cbn. intros r (? & ? & ?). split; [done|lia].
      * apply Forall_singleton. cbn. split; [done|lia].
  - exists []. rewrite app_nil_r. repeat split; first [done | cbn; lia].
Qed.

Lemma every_growth_is_logged_witness :
  let s' := fst (run_calls example_instance example_device
                   [Call (stream 9) false None 0; Call (stream 3) false None 0]) in
  let d' := snd (run_calls example_instance example_device
                   [Call (stream 9) false None 0; Call (stream 3) false None 0]) in
  ∃ new, log_info d' = log_info example_device ++ new
    ∧ next_handle d' = (4 * length new + next_handle example_device)%nat
    ∧ Forall (λ r, fst r = "increase raw buffer size to %s"
                   ∧ raw_size example_instance < snd r <= raw_size s') new
    ∧ (new = [] → raw_size s' = raw_size example_instance).
Proof.
  apply (every_growth_is_logged example_instance example_device
           [Call (stream 9) false None 0; Call (stream 3) false None 0]).
  vm_compute. reflexivity.
Defined.

End Instance.

(** ** More on the texts of [_init_double_scan] *)

Section DoubleScanMore.
Import ByteOffsetCodec CL.

Lemma int32_range x : - 2 ^ 31 <= int32 x < 2 ^ 31.
Proof.
  unfold int32. pose proof (Z.mod_pos_bound (x + 2 ^ 31) (2 ^ 32)). lia.
Qed.

Lemma int32_add_l x y : int32 (int32 x + y) = int32 (x + y).
Proof.
  unfold int32.
  replace ((x + 2 ^ 31) mod 2 ^ 32 - 2 ^ 31 + y + 2 ^ 31)
    with ((x + 2 ^ 31) mod 2 ^ 32 + y) by lia.
  rewrite Z.add_mod_idemp_l by lia. f_equal. f_equal. lia.
Qed.

Lemma int32_add_r x y : int32 (x + int32 y) = int32 (x + y).
Proof.
  replace (x + int32 y) with (int32 y + x) by lia.
  rewrite int32_add_l. f_equal. lia.
Qed.

Lemma combine_int2 x0 x1 y0 y1 :
  combine (VInt2 x0 x1) (VInt2 y0 y1)
  = Some (VInt2 (int32 (x0 + y0)) (int32 (x1 + y1))).
Proof. reflexivity. Qed.

(** X10: the input expression handed to the scan kernel indexes the
    array [mask], but the argument list handed along with it declares only
    [value] and [index]: the kernel text reads a name it does not declare,
    whatever the block size. *)
Theorem double_scan_reads_undeclared_mask s :
  let k := _init_double_scan s in
  squeeze (sk_input_expr k) = show input_expr
  ∧ declared_name <$> sk_arguments k = ["value"; "index"]
  ∧ "mask" ∈ array_reads input_expr
  ∧ ("mask" ∉ (declared_name <$> sk_arguments k))
  ∧ ∀ a, a ∈ (array_reads scan_expr ++ array_reads neutral
              ++ (output_statement ≫= λ '(Assign l r), array_reads l ++ array_reads r)) →
         a ∈ (declared_name <$> sk_arguments k).
Proof.
  intros k. subst k. unfold _init_double_scan.
  destruct (block_size s >=? 64); cbn [sk_input_expr sk_arguments].
  all: split; [reflexivity|]; split; [reflexivity|].
  all: split; [compute_done|]; split; [compute_done|].
  all: intros a Ha; cbn in Ha.
  all: repeat (apply elem_of_cons in Ha as [->|Ha]); [compute_done..|].
  all: by apply elem_of_nil in Ha.
Qed.

(** X12: the scan expression is a commutative, associative operation on
    items of two 32-bit components, and the neutral element handed to the
    kernel is its identity: what a parallel scan needs to give the result of
    the sequential one. *)
Theorem scan_expr_is_a_monoid x0 x1 y0 y1 z0 z1 :
  (combine (VInt2 x0 x1) (VInt2 y0 y1) ≫= λ xy, combine xy (VInt2 z0 z1))
  = (combine (VInt2 y0 y1) (VInt2 z0 z1) ≫= combine (VInt2 x0 x1))
  ∧ combine (VInt2 x0 x1) (VInt2 y0 y1) = combine (VInt2 y0 y1) (VInt2 x0 x1)
  ∧ (eval (Env ∅ ∅) neutral ≫= λ n, combine n (VInt2 (int32 x0) (int32 x1)))
    = Some (VInt2 (int32 x0) (int32 x1))
  ∧ (eval (Env ∅ ∅) neutral ≫= combine (VInt2 (int32 x0) (int32 x1)))
    = Some (VInt2 (int32 x0) (int32 x1)).
Proof.
  rewrite !combine_int2. cbn [mbind option_bind eval neutral].
  rewrite !combine_int2.
  rewrite !int32_add_l, !int32_add_r.
  rewrite !Z.add_0_l, !Z.add_0_r.
  assert (∀ x, int32 (int32 x) = int32 x) as Hidem
    by (intros x; apply int32_id, int32_range).
  rewrite ?Hidem.
  split; [by rewrite !Z.add_assoc|].
  split; [by rewrite (Z.add_comm x0), (Z.add_comm x1)|].
  done.
Qed.

End DoubleScanMore.

(** ** More on the tear-down of the plot *)

Section HarnessMore.
Import PlotHarness.

Lemma quiet_spec g a n :
  quiet g a n = true ↔ ∀ j, (a ≤ j < a + n)%nat → g j = false.
Proof.
  revert a. induction n as [|n IH]; intros a; cbn [quiet].
  - split; [intros _ j ?; lia|done].
  - rewrite andb_true_iff, negb_true_iff, IH. split.
    + intros [Ha Hrest] j Hj.
      destruct (decide (j = a)) as [->|]; [done|]. apply Hrest. lia.
    + intros H. split; [apply H; lia|]. intros j Hj. apply H. lia.
Qed.

Lemma yield_fields g t :
  plotAlive (yield g t) = plotAlive t && negb (connected t && g (turns t))
  ∧ connected (yield g t) = connected t
  ∧ turns (yield g t) = S (turns t)
  ∧ trace (yield g t) = trace t.
Proof.
  unfold yield. destruct (connected t && g (turns t)); cbn;
    by rewrite ?andb_true_r, ?andb_false_r.
Qed.

Lemma poll_S g n t :
  poll g (S n) t
  = if plotAlive t
    then poll g n (yield g (emit (QWait 10) (emit (ReadPlotAlive true) t)))
    else emit (ReadPlotAlive false) t.
Proof. cbn [poll]. rewrite plotAlive_emit. by destruct (plotAlive t). Qed.

(** The test case after one round of the loop that found the plot
    alive. *)
Lemma round_fields g t :
  plotAlive t = true → connected t = true →
  let t2 := yield g (emit (QWait 10) (emit (ReadPlotAlive true) t)) in
  plotAlive t2 = negb (g (turns t))
  ∧ connected t2 = true
  ∧ turns t2 = S (turns t)
  ∧ trace t2 = trace t ++ [ReadPlotAlive true; QWait 10].
Proof.
  intros Ha Hc t2. subst t2.
  destruct (yield_fields g (emit (QWait 10) (emit (ReadPlotAlive true) t)))
    as (-> & -> & -> & ->).
  cbn [emit plotAlive connected turns trace]. rewrite Ha, Hc. cbn [andb].
  by rewrite <- app_assoc.
Qed.

(** The flag after the loop, and whether the loop logged. *)
Lemma poll_outcome g n t :
  connected t = true →
  ∃ new, trace (poll g (S n) t) = trace t ++ new
    ∧ plotAlive (poll g (S n) t) = plotAlive t && quiet g (turns t) (S n)
    ∧ (LogError "Plot is still alive" ∈ new
       ↔ plotAlive t && quiet g (turns t) n = true).
Proof.
  revert t. induction n as [|n IH]; intros t Hc; rewrite poll_S.
  - destruct (plotAlive t) eqn:Ha.
    + destruct (round_fields g t Ha Hc) as (Hp & _ & _ & Htr).
      cbn [poll emit trace plotAlive]. rewrite Hp, Htr.
      eexists. rewrite <- !app_assoc. split; [reflexivity|].
      split; [by cbn [quiet andb]; rewrite andb_true_r|].
      split; [done|]. intros _. set_solver.
    + eexists. split; [reflexivity|]. split; [done|].
      split; [|done]. intros Hin. apply list_elem_of_singleton in Hin. discriminate.
  - destruct (plotAlive t) eqn:Ha.
    + destruct (round_fields g t Ha Hc) as (Hp & Hcn & Htn & Htr).
      destruct (IH _ Hcn) as (new & Hnew & Hflag & Hlog).
      exists ([ReadPlotAlive true; QWait 10] ++ new).
      split; [by rewrite Hnew, Htr, <- !app_assoc|].
      rewrite Hflag, Hp, Htn.
      split; [by cbn [quiet andb]|].
      rewrite elem_of_app, Hlog, Hp, Htn. cbn [quiet andb]. split.
      * intros [Hin|H]; [|done].
        repeat (apply elem_of_cons in Hin as [[=]|Hin]). by apply elem_of_nil in Hin.
      * intros H. by right.
    + eexists. split; [reflexivity|]. split; [done|].
      split; [|done]. intros Hin. apply list_elem_of_singleton in Hin. discriminate.
Qed.

Lemma quiet_false g a n :
  quiet g a n = false ↔ ∃ j, (a ≤ j < a + n)%nat ∧ g j = true.
Proof.
  revert a. induction n as [|n IH]; intros a; cbn [quiet].
  - split; [done|]. intros (j & ? & _). lia.
  - rewrite andb_false_iff, negb_false_iff, IH. split.
    + intros [Ha|(j & Hj & Hg)]; [exists a; split; [lia|done]|].
      exists j. split; [lia|done].
    + intros (j & Hj & Hg).
      destruct (decide (j = a)) as [->|]; [by left|].
      right. exists j. split; [lia|done].
Qed.

(** The flag after [tearDown] and whether it logged, for a test case whose
    plot is not yet connected to [__onPlotDestroyed]. *)
Lemma tearDown_closed_form g t :
  connected t = false →
  ∃ new, trace (tearDown g t) = trace t ++ new
    ∧ plotAlive (tearDown g t) = plotAlive t && quiet g (S (turns t)) 102
    ∧ (LogError "Plot is still alive" ∈ new
       ↔ plotAlive t && quiet g (S (turns t)) 101 = true).
Proof.
  intros Hc. unfold tearDown, _waitForPlotClosed.
  set (t1 := yield g (emit ProcessEvents t)).
  destruct (yield_fields g (emit ProcessEvents t)) as (Hp1 & Hc1 & Hn1 & Htr1).
  fold t1 in Hp1, Hc1, Hn1, Htr1.
  cbn [emit plotAlive connected turns trace] in Hp1, Hc1, Hn1, Htr1.
  rewrite Hc in Hp1, Hc1. cbn [andb negb] in Hp1. rewrite andb_true_r in Hp1.
  set (t2 := emit ConnectDestroyed
               (TestCase (plotAlive (emit (SetAttribute "WA_DeleteOnClose") t1)) true
                  (turns (emit (SetAttribute "WA_DeleteOnClose") t1))
                  (trace (emit (SetAttribute "WA_DeleteOnClose") t1)))).
  set (t3 := yield g (emit Close t2)).
  destruct (yield_fields g (emit Close t2)) as (Hp3 & Hc3 & Hn3 & Htr3).
  fold t3 in Hp3, Hc3, Hn3, Htr3.
  cbn [t2 emit plotAlive connected turns trace] in Hp3, Hc3, Hn3, Htr3.
  cbn [andb] in Hp3.
  set (t4 := yield g (emit DelPlot t3)).
  destruct (yield_fields g (emit DelPlot t3)) as (Hp4 & Hc4 & Hn4 & Htr4).
  fold t4 in Hp4, Hc4, Hn4, Htr4.
  cbn [emit plotAlive connected turns trace] in Hp4, Hc4, Hn4, Htr4.
  rewrite Hc3 in Hp4, Hc4. cbn [andb] in Hp4.
  destruct (poll_outcome g 99 t4 Hc4) as (new & Hnew & Hflag & Hlog).
  exists ([ProcessEvents; SetAttribute "WA_DeleteOnClose"; ConnectDestroyed;
           Close; DelPlot] ++ new ++ [SuperTearDown]).
  split.
  { cbn [emit trace]. rewrite Hnew, Htr4, Htr3, Htr1, <- !app_assoc. reflexivity. }
  rewrite plotAlive_emit, Hflag, Hp4, Hp3, Hp1, Hn4, Hn3, Hn1.
  split.
  { change 102%nat with (S (S 100)). cbn [quiet].
    by rewrite <- !andb_assoc. }
  rewrite !elem_of_app, Hlog, Hp4, Hp3, Hp1, Hn4, Hn3, Hn1.
  change 101%nat with (S (S 99)). cbn [quiet]. rewrite <- !andb_assoc.
  split.
  - intros [Hin|[H|Hin]]; [| done |].
    + repeat (apply elem_of_cons in Hin as [[=]|Hin]). by apply elem_of_nil in Hin.
    + apply list_elem_of_singleton in Hin. discriminate.
  - intros H. right. by left.
Qed.

(** X13: when [tearDown] starts on a test case whose plot is alive and
    not yet connected, the plot is still flagged alive afterwards exactly
    when Qt delivers [destroyed] at none of the 102 times control passes to
    it from the close request to the 100th wait, and the error is logged
    exactly when it delivers it at none of the first 101: a plot that dies
    during the 100th wait is logged as still alive although its flag is
    down. *)
Theorem tearDown_outcome g t :
  plotAlive t = true → connected t = false →
  ∃ new, trace (tearDown g t) = trace t ++ new
    ∧ (plotAlive (tearDown g t) = true
       ↔ ∀ j, (turns t < j ≤ turns t + 102)%nat → g j = false)
    ∧ (LogError "Plot is still alive" ∈ new
       ↔ ∀ j, (turns t < j ≤ turns t + 101)%nat → g j = false).
Proof.
  intros Ha Hc.
  destruct (tearDown_closed_form g t Hc) as (new & Htr & Hflag & Hlog).
  exists new. split; [done|].
  rewrite Hflag, Hlog, Ha. cbn [andb]. rewrite !quiet_spec.
  split; (split; intros H j Hj; apply H; lia).
Qed.

Lemma tearDown_outcome_witness :
  let g : gui := λ k, Nat.eqb k 105 in
  let t := setUp g (TestCase false false 0 []) in
  ∃ new, trace (tearDown g t) = trace t ++ new
    ∧ (plotAlive (tearDown g t) = true
       ↔ ∀ j, (turns t < j ≤ turns t + 102)%nat → g j = false)
    ∧ (LogError "Plot is still alive" ∈ new
       ↔ ∀ j, (turns t < j ≤ turns t + 101)%nat → g j = false).
Proof.
  apply (tearDown_outcome (λ k, Nat.eqb k 105)
           (setUp (λ k, Nat.eqb k 105) (TestCase false false 0 []))).
  - reflexivity.
  - reflexivity.
Defined.

Lemma setUp_fields g t :
  connected t = false →
  plotAlive (setUp g t) = true
  ∧ connected (setUp g t) = false
  ∧ turns (setUp g t) = (3 + turns t)%nat
  ∧ trace (setUp g t)
    = trace t ++ [SuperSetUp; CreatePlot; Show; WaitForWindowExposed; MouseClick 0 0].
Proof.
  intros Hc. unfold setUp.
  set (t1 := yield g (emit Show (emit CreatePlot (emit SuperSetUp t)))).
  destruct (yield_fields g (emit Show (emit CreatePlot (emit SuperSetUp t))))
    as (_ & Hc1 & Hn1 & Htr1).
  fold t1 in Hc1, Hn1, Htr1.
  cbn [emit connected turns trace] in Hc1, Hn1, Htr1.
  set (t2 := yield g (emit WaitForWindowExposed
                        (TestCase true (connected t1) (turns t1) (trace t1)))).
  destruct (yield_fields g (emit WaitForWindowExposed
                        (TestCase true (connected t1) (turns t1) (trace t1))))
    as (Hp2 & Hc2 & Hn2 & Htr2).
  fold t2 in Hp2, Hc2, Hn2, Htr2.
  cbn [emit plotAlive connected turns trace] in Hp2, Hc2, Hn2, Htr2.
  rewrite Hc1, Hc in Hp2, Hc2. cbn [andb negb] in Hp2.
  destruct (yield_fields g (emit (MouseClick 0 0) t2)) as (-> & -> & -> & ->).
  cbn [emit plotAlive connected turns trace].
  rewrite Hp2, Hc2, Hn2, Htr2, Hn1, Htr1, <- !app_assoc.
  done.
Qed.

(** X14: on a test case whose plot is not connected yet, [setUp] raises
    the liveness flag whatever it was and whatever Qt delivers meanwhile,
    and the [tearDown] that follows leaves the flag down exactly when Qt
    delivers [destroyed] at one of the 102 times control passes to it from
    the close request to the 100th wait. *)
Theorem setUp_then_tearDown g t :
  connected t = false →
  plotAlive (setUp g t) = true
  ∧ (plotAlive (tearDown g (setUp g t)) = false
     ↔ ∃ j, (turns t + 3 < j ≤ turns t + 105)%nat ∧ g j = true).
Proof.
  intros Hc. destruct (setUp_fields g t Hc) as (Ha & Hc' & Hn & _).
  split; [done|].
  destruct (tearDown_closed_form g (setUp g t) Hc') as (new & _ & -> & _).
  rewrite Ha, Hn. cbn [andb]. rewrite quiet_false.
  split; intros (j & Hj & Hg); exists j; (split; [lia|done]).
Qed.

Lemma setUp_then_tearDown_witness :
  let g : gui := λ k, Nat.eqb k 7 in
  let t := TestCase false false 0 [] in
  plotAlive (setUp g t) = true
  ∧ (plotAlive (tearDown g (setUp g t)) = false
     ↔ ∃ j, (turns t + 3 < j ≤ turns t + 105)%nat ∧ g j = true).
Proof.
  apply (setUp_then_tearDown (λ k, Nat.eqb k 7) (TestCase false false 0 [])).
  reflexivity.
Defined.

End HarnessMore.

(** ** The test module around the median filter *)

Section TestModule.
Import MedianFilter.

Lemma medfilt2d_kernel_one (e : engine) (img : image) :
  medfilt2d img KERNEL false e = img.
Proof.
  unfold medfilt2d, KERNEL. apply imap_same. intros r row Hr.
  apply imap_same. intros c x Hc.
  rewrite (window_one img r c row x Hr Hc). cbn [andb]. apply median_one.
Qed.

(** X15: a missing scipy does not skip the tests: the body of the class
    reads [scipy.misc] before the skip guard of the class is applied and
    raises [AttributeError], as it does when [scipy.misc] has neither
    [ascent] nor [lena].  The only skip the suite ever reports is the one
    of the OpenCL test when [ocl] is not set. *)
Theorem suite_skips_for_opencl_only scipy ocl pixels :
  (scipy = None → suite scipy ocl pixels = inl (AttributeError "misc"))
  ∧ (scipy = Some (ScipyPackage false false) →
       suite scipy ocl pixels = inl (AttributeError "lena"))
  ∧ ∀ r name why,
      suite scipy ocl pixels = inr r → (name, Skipped why) ∈ r →
      name = "testOpenCLMedFilt2d" ∧ why = "PyOpenCl is missing" ∧ ocl = false.
Proof.
  split; [by intros ->|]. split; [by intros ->|].
  intros r name why. unfold suite, TestMedianFilterEngines, class_body.
  destruct scipy as [[[] []]|]; try discriminate.
  all: intros [= <-] Hin; unfold run_test in Hin; cbn [class_skip IMG] in Hin.
  all: unfold testCppMedFilt2d, testOpenCLMedFilt2d in Hin.
  all: rewrite !medfilt2d_kernel_one in Hin.
  all: rewrite !bool_decide_eq_true_2 in Hin by done.
  all: destruct ocl.
  all: repeat (apply elem_of_cons in Hin as [Heq|Hin]); try discriminate.
  all: try (by apply elem_of_nil in Hin).
  all: by injection Heq as -> ->.
Qed.

(** X16: with scipy at hand, [IMG] is [ascent] when [scipy.misc] has it
    and [lena] otherwise, and whatever the pixels of the fixture the C++
    test passes and the OpenCL test passes when [ocl] is set and is skipped
    when it is not. *)
Theorem suite_outcomes p ocl pixels :
  misc_has_ascent p || misc_has_lena p = true →
  TestMedianFilterEngines (Some p)
  = inr (TestClass (if misc_has_ascent p then ascent else lena) None)
  ∧ suite (Some p) ocl pixels
    = inr [ ("testCppMedFilt2d", Passed);
            ("testOpenCLMedFilt2d",
             if ocl then Passed else Skipped "PyOpenCl is missing") ].
Proof.
  intros Hp. unfold suite, TestMedianFilterEngines, class_body.
  destruct p as [[] []]; try discriminate;
    cbn [misc_has_ascent misc_has_lena class_skip IMG].
  all: unfold run_test, testCppMedFilt2d, testOpenCLMedFilt2d; cbn [class_skip IMG].
  all: rewrite !medfilt2d_kernel_one, !bool_decide_eq_true_2 by done.
  all: by destruct ocl.
Qed.

Lemma suite_outcomes_witness :
  TestMedianFilterEngines (Some (ScipyPackage false true))
  = inr (TestClass (if misc_has_ascent (ScipyPackage false true) then ascent else lena)
                   None)
  ∧ suite (Some (ScipyPackage false true)) false (λ _, [[1; 2]; [3; 4]])
    = inr [ ("testCppMedFilt2d", Passed);
            ("testOpenCLMedFilt2d",
             if false then Passed else Skipped "PyOpenCl is missing") ].
Proof.
  apply (suite_outcomes (ScipyPackage false true) false (λ _, [[1; 2]; [3; 4]])).
  reflexivity.
Defined.

End TestModule.
